(** * ArtifactsManager (detox/src/artifacts/ArtifactsManager.js)

    A shallow embedding of the [ArtifactsManager] class and of the
    capability object [artifactsApi] that it hands to its plugins.

    JavaScript is single threaded and runs every synchronous stretch of code
    to completion, so the class is embedded as a reactive machine whose
    transitions are exactly the synchronous stretches of its methods: the
    part of an [async] method up to its first [await], the part between two
    [await]s, and the reaction job of the [.then] at line 78.  The methods
    are functions on the record of the object's fields; the machine adds
    what the run time holds (promises not yet settled, suspended bodies).

    What lies outside the class is kept abstract:
    - plugins, idle callbacks and artifacts are foreign code.  Each is a
      record that carries what a call of its methods does (fulfil, reject
      or throw); every call settles.  The calls that foreign code makes back
      into [artifactsApi], as method calls on that object, are inputs of the
      machine, between two stretches of the manager's own code;
    - the run time may take any time to resume a suspended body or to run
      a reaction, so the machine allows every interleaving of the inputs,
      which are more than a JavaScript engine produces;
    - logging ([log.error], [logError], [log.verbose], [log.info]) leaves an
      event and does not throw; a failure of a hook is logged with the call
      of the hook. *)

From Stdlib Require Import String ZArith Bool Arith Lia List Permutation.
Import ListNotations.
Open Scope string_scope.
Open Scope list_scope.
Open Scope nat_scope.

(** ** JavaScript values *)

(** The values that flow through the class: the run context fields start as
    [''] and [NaN] (lines 19-21), event payloads are objects, and a missing
    property reads as [undefined].  Process ids are integers, so numbers are
    [NaN] or an integer. *)
#[warnings="-register-all"]
Inductive value : Type :=
| VUndefined
| VNaN
| VNum (n : Z)
| VStr (s : string)
| VObj (fields : list (string * value)).

(** ToBoolean: what [!x], [x || y] and [x ? a : b] test. *)
Definition truthy (v : value) : bool :=
  match v with
  | VUndefined => false
  | VNaN => false
  | VNum n => negb (Z.eqb n 0)
  | VStr s => negb (String.eqb s "")
  | VObj _ => true
  end.

(** [a || b] *)
Definition js_or (a b : value) : value := if truthy a then a else b.

(** ** Foreign code *)

(** What calling a foreign function does: it returns normally (a value or a
    promise that fulfils), it returns a promise that rejects, or it throws
    synchronously. *)
Inductive outcome : Type :=
| Fulfils
| Rejects (e : value)
| Throws (e : value).

(** The state in which a promise settles. *)
Inductive settlement : Type :=
| Fulfilled
| Rejected (e : value).

(** A plugin instance: [plugin.name] and [plugin[methodName](...args)].
    A hook that the plugin does not define is a [Throws] (calling
    [undefined] is a TypeError). *)
Record Plugin : Type := mkPlugin {
  name : value;
  hook : string -> list value -> outcome
}.

(** A tracked artifact: an object, compared by reference, with a
    [discard()] method. *)
Record Artifact : Type := mkArtifact {
  ref : nat;
  discard : outcome
}.

(** SameValueZero on two objects is identity of reference. *)
Definition same_object (a b : Artifact) : bool := Nat.eqb (ref a) (ref b).

(** An idle callback: a function object, the [_from] property written at
    line 75 (it only serves error attribution, so it is kept per queue
    entry) and what calling the function does. *)
Record IdleCallback : Type := mkCallback {
  fn : nat;
  _from : value;
  run : outcome
}.

Definition set_from (callback : IdleCallback) (v : value) : IdleCallback :=
  {| fn := fn callback; _from := v; run := run callback |}.

(** ** Observable effects *)

Inductive event : Type :=
| Invoke (p : Plugin) (methodName : string) (args : list value)
    (* plugin[methodName](...args) is called *)
| Discard (a : Artifact)
    (* artifact.discard() is called *)
| IdleStart (cb : IdleCallback)
    (* an idle callback is started *)
| IdleEnd (cb : IdleCallback)
    (* an idle callback has settled *)
| LogError (pluginName : value) (methodName : string) (e : value)
    (* log.error(...) and logError(e) of _errorHandler *)
| LogVerbose (message : string)
| LogInfo (message : string)
| Return (method : string) (s : settlement).
    (* the promise returned by an async method of the manager settles *)

(** ** The object *)

(** [_idlePromise] is the tail of a chain that is only ever extended at line
    78 by [this._idlePromise = this._idlePromise.then(...)], always with the
    same closure.  The chain is therefore linear and a promise of the chain is
    named by its position: 0 is the [Promise.resolve()] of line 14 and
    [S p] is [p.then(...)].

    [_terminated] is read at line 79.  The constructor does not define it, so
    it starts as [undefined].

    [onTerminate_called] is the state of the [_.once] wrapper installed at
    line 12: whether the wrapper has been called. *)
Record ArtifactsManager : Type := mkManager {
  onTerminate_called : bool;
  _idlePromise : nat;
  _onIdleCallbacks : list IdleCallback;
  _activeArtifacts : list Artifact;
  _artifactPlugins : list Plugin;
  _deviceId : value;
  _bundleId : value;
  _pid : value;
  _terminated : value
}.

(** lines 11-26 *)
Definition constructor : ArtifactsManager :=
  {| onTerminate_called := false;
     _idlePromise := 0;
     _onIdleCallbacks := [];
     _activeArtifacts := [];
     _artifactPlugins := [];
     _deviceId := VStr "";
     _bundleId := VStr "";
     _pid := VNaN;
     _terminated := VUndefined |}.

Definition set_onTerminate_called (b : bool) (this : ArtifactsManager) :=
  {| onTerminate_called := b;
     _idlePromise := _idlePromise this;
     _onIdleCallbacks := _onIdleCallbacks this;
     _activeArtifacts := _activeArtifacts this;
     _artifactPlugins := _artifactPlugins this;
     _deviceId := _deviceId this;
     _bundleId := _bundleId this;
     _pid := _pid this;
     _terminated := _terminated this |}.

Definition set_idlePromise (p : nat) (this : ArtifactsManager) :=
  {| onTerminate_called := onTerminate_called this;
     _idlePromise := p;
     _onIdleCallbacks := _onIdleCallbacks this;
     _activeArtifacts := _activeArtifacts this;
     _artifactPlugins := _artifactPlugins this;
     _deviceId := _deviceId this;
     _bundleId := _bundleId this;
     _pid := _pid this;
     _terminated := _terminated this |}.

Definition set_onIdleCallbacks (q : list IdleCallback) (this : ArtifactsManager) :=
  {| onTerminate_called := onTerminate_called this;
     _idlePromise := _idlePromise this;
     _onIdleCallbacks := q;
     _activeArtifacts := _activeArtifacts this;
     _artifactPlugins := _artifactPlugins this;
     _deviceId := _deviceId this;
     _bundleId := _bundleId this;
     _pid := _pid this;
     _terminated := _terminated this |}.

Definition set_activeArtifacts (l : list Artifact) (this : ArtifactsManager) :=
  {| onTerminate_called := onTerminate_called this;
     _idlePromise := _idlePromise this;
     _onIdleCallbacks := _onIdleCallbacks this;
     _activeArtifacts := l;
     _artifactPlugins := _artifactPlugins this;
     _deviceId := _deviceId this;
     _bundleId := _bundleId this;
     _pid := _pid this;
     _terminated := _terminated this |}.

Definition set_artifactPlugins (l : list Plugin) (this : ArtifactsManager) :=
  {| onTerminate_called := onTerminate_called this;
     _idlePromise := _idlePromise this;
     _onIdleCallbacks := _onIdleCallbacks this;
     _activeArtifacts := _activeArtifacts this;
     _artifactPlugins := l;
     _deviceId := _deviceId this;
     _bundleId := _bundleId this;
     _pid := _pid this;
     _terminated := _terminated this |}.

Definition set_context (d b p : value) (this : ArtifactsManager) :=
  {| onTerminate_called := onTerminate_called this;
     _idlePromise := _idlePromise this;
     _onIdleCallbacks := _onIdleCallbacks this;
     _activeArtifacts := _activeArtifacts this;
     _artifactPlugins := _artifactPlugins this;
     _deviceId := d;
     _bundleId := b;
     _pid := p;
     _terminated := _terminated this |}.

(** ** artifactsApi: the synchronous part (lines 27-83) *)

(** A synchronous call returns a value or throws a [DetoxRuntimeError]. *)
Inductive completion (A : Type) : Type :=
| Normal (a : A)
| DetoxRuntimeError (message : string).
Arguments Normal {A} a.
Arguments DetoxRuntimeError {A} message.

(** lines 28-36 *)
Definition getDeviceId (this : ArtifactsManager) : completion value :=
  if negb (truthy (_deviceId this))
  then DetoxRuntimeError "Detox Artifacts API had no deviceId at the time of calling"
  else Normal (_deviceId this).

(** lines 38-46 *)
Definition getBundleId (this : ArtifactsManager) : completion value :=
  if negb (truthy (_bundleId this))
  then DetoxRuntimeError "Detox Artifacts API had no bundleId at the time of calling"
  else Normal (_bundleId this).

(** lines 48-56 *)
Definition getPid (this : ArtifactsManager) : completion value :=
  if negb (truthy (_pid this))
  then DetoxRuntimeError "Detox Artifacts API had no app pid at the time of calling"
  else Normal (_pid this).

(** lines 66-68: [Array.prototype.push] *)
Definition trackArtifact (artifact : Artifact) (this : ArtifactsManager)
  : ArtifactsManager :=
  set_activeArtifacts (_activeArtifacts this ++ [artifact]) this.

(** lodash [_.pull(array, value)]: removes every element that is
    SameValueZero-equal to [value], in place, and never throws; when [array]
    is [undefined] ([None]) there is nothing to remove from. *)
Definition pull (array : option (list Artifact)) (value : Artifact)
  : option (list Artifact) :=
  option_map (filter (fun x => negb (same_object x value))) array.

(** What the capability object holds under the name [_activeArtifacts]:
    [artifactsApi] (lines 27-83) is an object literal whose own properties
    are its seven functions, so the read gives [undefined]. *)
Definition artifactsApi_activeArtifacts : option (list Artifact) := None.

(** lines 70-72.  Its six siblings are arrow functions, whose [this] is the
    manager; [untrackArtifact] alone is written as a method of the object
    literal, so that in [api.untrackArtifact(artifact)] its [this] is
    [artifactsApi].  [_.pull] is handed [undefined] and removes nothing: the
    live set of the manager, here [manager], is not reached. *)
Definition untrackArtifact (artifact : Artifact) (manager : ArtifactsManager)
  : ArtifactsManager :=
  let _ := pull artifactsApi_activeArtifacts artifact in
  manager.

(** lines 74-82: tag the callback, push it, and chain one more [.then] on
    the tail.  The closure given to [.then] is [idle_reaction] below; it runs
    later, when the former tail has settled. *)
Definition requestIdleCallback (callback : IdleCallback) (caller : Plugin)
  (this : ArtifactsManager) : ArtifactsManager :=
  let callback := set_from callback (name caller) in
  let this := set_onIdleCallbacks (_onIdleCallbacks this ++ [callback]) this in
  set_idlePromise (S (_idlePromise this)) this.

(** lines 86-94: [shift()] the oldest callback and start it; the result
    lists the callbacks whose settlement the returned promise awaits (none
    when the queue was empty). *)
Definition _runNextIdleTask (this : ArtifactsManager)
  : ArtifactsManager * list IdleCallback :=
  match _onIdleCallbacks this with
  | [] => (this, [])
  | onIdleCallback :: rest => (set_onIdleCallbacks rest this, [onIdleCallback])
  end.

(** lines 96-104: [splice(0)] detaches the whole queue and all of it is
    started; the returned [Promise.all] awaits every one of them. *)
Definition _runAllIdleTasks (this : ArtifactsManager)
  : ArtifactsManager * list IdleCallback :=
  (set_onIdleCallbacks [] this, _onIdleCallbacks this).

(** lines 79-81: the closure chained at line 78. *)
Definition idle_reaction (this : ArtifactsManager)
  : ArtifactsManager * list IdleCallback :=
  if truthy (_terminated this)
  then _runAllIdleTasks this
  else _runNextIdleTask this.

(** lines 106-109.  The factories are foreign code; [plugins] is what they
    return, in the order of [Object.values].

    [preparePathForArtifact] (lines 58-64) reads and writes no field of the
    manager, it only reaches the path builder and the file system; it is
    left out. *)
Definition registerArtifactPlugins (plugins : list Plugin)
  (this : ArtifactsManager) : ArtifactsManager :=
  set_artifactPlugins plugins this.

(** ** Promises and fan-out (lines 155-182) *)

(** [Promise.all] over promises that settle as listed: it fulfils when all
    of them fulfil and rejects as soon as one rejects (the leftmost one
    stands for the first to do so). *)
Fixpoint Promise_all (promises : list settlement) : settlement :=
  match promises with
  | [] => Fulfilled
  | Fulfilled :: rest => Promise_all rest
  | Rejected e :: _ => Rejected e
  end.

(** The promise returned by an async arrow whose body is
    [try { await call } catch (e) { handler(e) }] with a handler that only
    logs: what the handler logged, and the settlement. *)
Definition try_await (call : outcome) (handler : value -> list event)
  : list event * settlement :=
  match call with
  | Fulfils => ([], Fulfilled)
  | Rejects e => (handler e, Fulfilled)
  | Throws e => (handler e, Fulfilled)
  end.

(** [Array.prototype.map] with an arrow that is a bare foreign call
    ([x => x.m()]): the calls are made in order, each leaves its event, a
    synchronous throw ends the loop and propagates; otherwise the result is
    the array of returned promises. *)
Fixpoint map_calls (calls : list (event * outcome))
  : list event * (list settlement + value) :=
  match calls with
  | [] => ([], inl [])
  | (ev, Throws e) :: _ => ([ev], inr e)
  | (ev, o) :: rest =>
      let (evs, r) := map_calls rest in
      let s := match o with Rejects e => Rejected e | _ => Fulfilled end in
      (ev :: evs, match r with inl ss => inl (s :: ss) | inr e => inr e end)
  end.

(** lines 171-174 *)
Definition _errorHandler (e : value) (pluginName : value) (methodName : string)
  : list event :=
  [LogError (js_or pluginName (VStr "unknown")) methodName e].

(** lines 176-182 *)
Definition _idleCallbackErrorHandle (e : value) (callback : IdleCallback)
  : list event :=
  _errorHandler e (_from callback) "onIdleCallback".

(** lines 162-168: the async arrow applied to one plugin. *)
Definition _emit_plugin (methodName : string) (args : list value)
  (plugin : Plugin) : list event * settlement :=
  let (logged, s) :=
    try_await (hook plugin methodName args)
              (fun e => _errorHandler e (name plugin) methodName) in
  (Invoke plugin methodName args :: logged, s).

(** lines 161-169: what the fan-out does and how the awaited [Promise.all]
    settles. *)
Definition _emit (methodName : string) (args : list value)
  (this : ArtifactsManager) : list event * settlement :=
  let results := map (_emit_plugin methodName args) (_artifactPlugins this) in
  (concat (map fst results), Promise_all (map snd results)).

(** ** Suspended method bodies *)

(** Where an async method of the manager is suspended, with the settlement
    of the promise it awaits when that is already determined. *)
Inductive cont : Type :=
| await_emit (method : string) (s : settlement)
    (* lines 125, 130, 134, 138, 142, 146: [await this._emit(...)], then return *)
| onAfterAll_150 (s : settlement)
| onAfterAll_151 (tail : nat)
| onTerminate_156 (s : settlement)
| onTerminate_157 (s : settlement).

(** How far a call of an async method got: suspended at an [await], or
    returned with its promise settled. *)
Inductive progress : Type :=
| Await (c : cont)
| Done (s : settlement).

(** The payload of a [launchApp] event, destructured at line 117. *)
Record LaunchAppEvent : Type := mkLaunch {
  deviceId : value;
  bundleId : value;
  pid : value
}.

(** [{ deviceId, bundleId, pid }] at line 125 *)
Definition relaunch_payload (e : LaunchAppEvent) : value :=
  VObj [("deviceId", deviceId e); ("bundleId", bundleId e); ("pid", pid e)].

(** lines 117-127 *)
Definition onLaunchApp (e : LaunchAppEvent) (this : ArtifactsManager)
  : ArtifactsManager * list event * progress :=
  let isFirstTime := negb (truthy (_deviceId this)) in
  let this := set_context (deviceId e) (bundleId e) (pid e) this in
  if negb isFirstTime
  then let (evs, s) := _emit "onRelaunchApp" [relaunch_payload e] this in
       (this, evs, Await (await_emit "onLaunchApp" s))
  else (this, [], Done Fulfilled).

(** lines 129-131 *)
Definition onBeforeAll (this : ArtifactsManager) : list event * progress :=
  let (evs, s) := _emit "onBeforeAll" [] this in
  (evs, Await (await_emit "onBeforeAll" s)).

(** lines 133-135 *)
Definition onBeforeTest (testSummary : value) (this : ArtifactsManager)
  : list event * progress :=
  let (evs, s) := _emit "onBeforeTest" [testSummary] this in
  (evs, Await (await_emit "onBeforeTest" s)).

(** lines 137-139 *)
Definition onBeforeResetDevice (deviceId : value) (this : ArtifactsManager)
  : list event * progress :=
  let (evs, s) :=
    _emit "onBeforeResetDevice" [VObj [("deviceId", deviceId)]] this in
  (evs, Await (await_emit "onBeforeResetDevice" s)).

(** lines 141-143 *)
Definition onResetDevice (deviceId : value) (this : ArtifactsManager)
  : list event * progress :=
  let (evs, s) := _emit "onResetDevice" [VObj [("deviceId", deviceId)]] this in
  (evs, Await (await_emit "onResetDevice" s)).

(** lines 145-147 *)
Definition onAfterTest (testSummary : value) (this : ArtifactsManager)
  : list event * progress :=
  let (evs, s) := _emit "onAfterTest" [testSummary] this in
  (evs, Await (await_emit "onAfterTest" s)).

(** line 150, up to the [await] *)
Definition onAfterAll (this : ArtifactsManager) : list event * progress :=
  let (evs, s) := _emit "onAfterAll" [] this in
  (evs, Await (onAfterAll_150 s)).

(** line 156, up to the [await]: the body of the method that line 12 wraps *)
Definition onTerminate_body (this : ArtifactsManager) : list event * progress :=
  let calls :=
    map (fun plugin => (Invoke plugin "onTerminate" [], hook plugin "onTerminate" []))
        (_artifactPlugins this) in
  match map_calls calls with
  | (evs, inr e) => (evs, Done (Rejected e))
  | (evs, inl promises) => (evs, Await (onTerminate_156 (Promise_all promises)))
  end.

(** line 157, up to the [await] *)
Definition onTerminate_discard (this : ArtifactsManager) : list event * progress :=
  let calls := map (fun artifact => (Discard artifact, discard artifact))
                   (_activeArtifacts this) in
  match map_calls calls with
  | (evs, inr e) => (evs, Done (Rejected e))
  | (evs, inl promises) => (evs, Await (onTerminate_157 (Promise_all promises)))
  end.

(** [this.onTerminate] after line 12: lodash [_.once] runs the wrapped
    function on the first call only; a later call returns the promise of
    the first call and runs nothing ([None]). *)
Definition onTerminate (this : ArtifactsManager)
  : ArtifactsManager * list event * option progress :=
  if onTerminate_called this
  then (this, [], None)
  else let this := set_onTerminate_called true this in
       let (evs, pr) := onTerminate_body this in
       (this, evs, Some pr).

(** ** The machine *)

(** The manager together with what the JavaScript run time holds for it:
    how many promises of the idle chain have settled (promises [1..settled]),
    the idle callbacks that the reaction now running has taken from the
    queue and that have not settled yet ([None] when no reaction of the
    chain is running), the suspended bodies of the manager's async methods,
    and the last of the callbacks in flight whose own job (the [.then] of
    line 100) has not run yet, so that they have not started. *)
Record runtime : Type := mkRuntime {
  this : ArtifactsManager;
  settled : nat;
  in_flight : option (list IdleCallback);
  awaiting : list cont;
  detached : list IdleCallback
}.

(** [new ArtifactsManager()] *)
Definition boot : runtime :=
  {| this := constructor; settled := 0; in_flight := None; awaiting := [];
     detached := [] |}.

(** What can happen next: the test runner calls a method of the manager
    (through [subscribeToDeviceEvents], lines 111-115, for the device
    events), a plugin calls into [artifactsApi], or the run time resumes
    code of the manager. *)
Inductive input : Type :=
| Call_registerArtifactPlugins (plugins : list Plugin)
| Call_onLaunchApp (e : LaunchAppEvent)
| Call_onBeforeAll
| Call_onBeforeTest (testSummary : value)
| Call_onBeforeResetDevice (deviceId : value)
| Call_onResetDevice (deviceId : value)
| Call_onAfterTest (testSummary : value)
| Call_onAfterAll
| Call_onTerminate
| Api_trackArtifact (artifact : Artifact)
| Api_untrackArtifact (artifact : Artifact)
| Api_requestIdleCallback (callback : IdleCallback) (caller : Plugin)
| Tick
    (* the tail's predecessor has settled: the reaction of line 79 runs *)
| Finish (i : nat)
    (* the i-th idle callback in flight settles *)
| Resume (i : nat)
    (* the promise awaited by the i-th suspended body has settled *)
| Start.
    (* the job of line 100 runs for the next detached callback *)

Definition remove_at {A : Type} (i : nat) (l : list A) : list A :=
  firstn i l ++ skipn (S i) l.

Definition with_this (m : ArtifactsManager) (rt : runtime) : runtime :=
  {| this := m; settled := settled rt; in_flight := in_flight rt;
     awaiting := awaiting rt; detached := detached rt |}.

Definition with_awaiting (l : list cont) (rt : runtime) : runtime :=
  {| this := this rt; settled := settled rt; in_flight := in_flight rt;
     awaiting := l; detached := detached rt |}.

Definition with_idle (n : nat) (f : option (list IdleCallback)) (rt : runtime)
  : runtime :=
  {| this := this rt; settled := n; in_flight := f; awaiting := awaiting rt;
     detached := detached rt |}.

Definition with_detached (l : list IdleCallback) (rt : runtime) : runtime :=
  {| this := this rt; settled := settled rt; in_flight := in_flight rt;
     awaiting := awaiting rt; detached := l |}.

(** A call of the async method [method] got as far as [pr]. *)
Definition proceed (method : string) (evs : list event) (pr : progress)
  (rt : runtime) : runtime * list event :=
  match pr with
  | Await c => (with_awaiting (awaiting rt ++ [c]) rt, evs)
  | Done s => (rt, evs ++ [Return method s])
  end.

(** The reaction of line 79 runs: the link [settled + 1] of the chain.  Its
    promise settles when every callback it took from the queue has settled,
    at once when it took none.  [_runNextIdleTask] takes one callback, which
    starts in the job that follows the reaction; the machine takes the two
    jobs as one step.  [_runAllIdleTasks] takes the whole queue and gives
    each callback a job of its own (line 100): the callbacks are detached
    here and start one by one, see [start]. *)
Definition tick (rt : runtime) : option (runtime * list event) :=
  match in_flight rt with
  | Some _ => None
  | None =>
      if settled rt <? _idlePromise (this rt)
      then let forced := truthy (_terminated (this rt)) in
           let (m, taken) := idle_reaction (this rt) in
           let rt := with_this m rt in
           Some (match taken with
                 | [] => with_idle (S (settled rt)) None rt
                 | _ =>
                     let rt := with_idle (settled rt) (Some taken) rt in
                     if forced then with_detached taken rt else rt
                 end, if forced then [] else map IdleStart taken)
      else None
  end.

(** line 100: the job of the next detached callback runs, which starts the
    callback.  The jobs run in the order in which line 99 made them. *)
Definition start (rt : runtime) : option (runtime * list event) :=
  match detached rt with
  | [] => None
  | onIdleCallback :: rest =>
      Some (with_detached rest rt, [IdleStart onIdleCallback])
  end.

(** lines 90-92 and 100-102: [Promise.resolve().then(cb).catch(...)] settles;
    a failure of the callback is handled, so the promise fulfils.  Only a
    callback that has started can settle: the detached ones are the last
    of those in flight. *)
Definition finish (i : nat) (rt : runtime) : option (runtime * list event) :=
  match in_flight rt with
  | None => None
  | Some running =>
      if i <? List.length running - List.length (detached rt)
      then match nth_error running i with
           | None => None
           | Some onIdleCallback =>
               let (logged, _) :=
                 try_await (run onIdleCallback)
                           (fun e => _idleCallbackErrorHandle e onIdleCallback) in
               Some (match remove_at i running with
                     | [] => with_idle (S (settled rt)) None rt
                     | rest => with_idle (settled rt) (Some rest) rt
                     end, IdleEnd onIdleCallback :: logged)
           end
      else None
  end.

(** The body suspended as [c] continues. *)
Definition resume (c : cont) (rt : runtime) : option (runtime * list event) :=
  match c with
  | await_emit method s => Some (proceed method [] (Done s) rt)
  | onAfterAll_150 (Rejected e) =>
      Some (proceed "onAfterAll" [] (Done (Rejected e)) rt)
  | onAfterAll_150 Fulfilled =>
      (* line 151 reads the tail and awaits it *)
      Some (proceed "onAfterAll" []
              (Await (onAfterAll_151 (_idlePromise (this rt)))) rt)
  | onAfterAll_151 tail =>
      (* the promises of the chain only fulfil, see [finish] *)
      if tail <=? settled rt
      then Some (proceed "onAfterAll"
                   [LogVerbose "finalized artifacts successfully"]
                   (Done Fulfilled) rt)
      else None
  | onTerminate_156 (Rejected e) =>
      Some (proceed "onTerminate" [] (Done (Rejected e)) rt)
  | onTerminate_156 Fulfilled =>
      let (evs, pr) := onTerminate_discard (this rt) in
      Some (proceed "onTerminate" evs pr rt)
  | onTerminate_157 (Rejected e) =>
      Some (proceed "onTerminate" [] (Done (Rejected e)) rt)
  | onTerminate_157 Fulfilled =>
      Some (proceed "onTerminate" [LogInfo "terminated all artifacts"]
              (Done Fulfilled) rt)
  end.

(** One transition; [None] when the run time cannot do [i] in [rt]. *)
Definition step (rt : runtime) (i : input) : option (runtime * list event) :=
  match i with
  | Call_registerArtifactPlugins plugins =>
      Some (with_this (registerArtifactPlugins plugins (this rt)) rt, [])
  | Call_onLaunchApp e =>
      let '(m, evs, pr) := onLaunchApp e (this rt) in
      Some (proceed "onLaunchApp" evs pr (with_this m rt))
  | Call_onBeforeAll =>
      let (evs, pr) := onBeforeAll (this rt) in
      Some (proceed "onBeforeAll" evs pr rt)
  | Call_onBeforeTest testSummary =>
      let (evs, pr) := onBeforeTest testSummary (this rt) in
      Some (proceed "onBeforeTest" evs pr rt)
  | Call_onBeforeResetDevice deviceId =>
      let (evs, pr) := onBeforeResetDevice deviceId (this rt) in
      Some (proceed "onBeforeResetDevice" evs pr rt)
  | Call_onResetDevice deviceId =>
      let (evs, pr) := onResetDevice deviceId (this rt) in
      Some (proceed "onResetDevice" evs pr rt)
  | Call_onAfterTest testSummary =>
      let (evs, pr) := onAfterTest testSummary (this rt) in
      Some (proceed "onAfterTest" evs pr rt)
  | Call_onAfterAll =>
      let (evs, pr) := onAfterAll (this rt) in
      Some (proceed "onAfterAll" evs pr rt)
  | Call_onTerminate =>
      match onTerminate (this rt) with
      | (m, evs, Some pr) => Some (proceed "onTerminate" evs pr (with_this m rt))
      | (m, evs, None) => Some (with_this m rt, evs)
      end
  | Api_trackArtifact artifact =>
      Some (with_this (trackArtifact artifact (this rt)) rt, [])
  | Api_untrackArtifact artifact =>
      Some (with_this (untrackArtifact artifact (this rt)) rt, [])
  | Api_requestIdleCallback callback caller =>
      Some (with_this (requestIdleCallback callback caller (this rt)) rt, [])
  | Tick => tick rt
  | Finish i => finish i rt
  | Resume i =>
      match nth_error (awaiting rt) i with
      | None => None
      | Some c => resume c (with_awaiting (remove_at i (awaiting rt)) rt)
      end
  | Start => start rt
  end.

(** A run: the state reached and everything observed on the way. *)
Fixpoint exec (rt : runtime) (inputs : list input)
  : option (runtime * list event) :=
  match inputs with
  | [] => Some (rt, [])
  | i :: rest =>
      match step rt i with
      | None => None
      | Some (rt1, evs1) =>
          match exec rt1 rest with
          | None => None
          | Some (rt2, evs2) => Some (rt2, evs1 ++ evs2)
          end
      end
  end.

(** * Vocabulary of the properties *)

(** ** What is observed of a run *)

(** The manager after a step, as a function of the manager before it. *)
Definition this_after (i : input) (m : ArtifactsManager) : ArtifactsManager :=
  match i with
  | Call_registerArtifactPlugins plugins => registerArtifactPlugins plugins m
  | Call_onLaunchApp e => fst (fst (onLaunchApp e m))
  | Call_onTerminate => fst (fst (onTerminate m))
  | Api_trackArtifact artifact => trackArtifact artifact m
  | Api_untrackArtifact artifact => untrackArtifact artifact m
  | Api_requestIdleCallback callback caller => requestIdleCallback callback caller m
  | Tick => fst (idle_reaction m)
  | _ => m
  end.

(** The most recent [launchApp] event among the inputs, after [acc]. *)
Definition last_launch_from (acc : option LaunchAppEvent) (inputs : list input)
  : option LaunchAppEvent :=
  fold_left (fun acc i => match i with
                          | Call_onLaunchApp e => Some e
                          | _ => acc
                          end) inputs acc.

Definition last_launch (inputs : list input) : option LaunchAppEvent :=
  last_launch_from None inputs.

(** The callbacks requested among the inputs, as they are queued. *)
Definition requests (inputs : list input) : list IdleCallback :=
  flat_map (fun i => match i with
                     | Api_requestIdleCallback callback caller =>
                         [set_from callback (name caller)]
                     | _ => []
                     end) inputs.

(** The hook calls among the events: plugin, hook name, arguments. *)
Definition invocations (evs : list event) : list (Plugin * string * list value) :=
  flat_map (fun ev => match ev with
                      | Invoke p methodName args => [(p, methodName, args)]
                      | _ => []
                      end) evs.

(** The artifacts discarded among the events. *)
Definition discards (evs : list event) : list Artifact :=
  flat_map (fun ev => match ev with Discard a => [a] | _ => [] end) evs.

(** The starts and ends of idle callbacks among the events. *)
Definition idle_events (evs : list event) : list event :=
  filter (fun ev => match ev with
                    | IdleStart _ | IdleEnd _ => true
                    | _ => false
                    end) evs.

(** The methods whose promise rejects among the events. *)
Definition rejections (evs : list event) : list string :=
  flat_map (fun ev => match ev with
                      | Return method (Rejected _) => [method]
                      | _ => []
                      end) evs.

(** No event but [Invoke] and [LogError]. *)
Definition hook_event (ev : event) : bool :=
  match ev with
  | Invoke _ _ _ | LogError _ _ _ => true
  | _ => false
  end.

(** Neither a discard nor the start or end of an idle callback. *)
Definition plain_event (ev : event) : bool :=
  match ev with
  | Discard _ | IdleStart _ | IdleEnd _ => false
  | _ => true
  end.

(** How many objects of [l] are the object [a]. *)
Definition occurrences (a : Artifact) (l : list Artifact) : nat :=
  List.length (filter (fun x => same_object x a) l).

(** The artifacts passed to [trackArtifact] among the inputs, in the order
    of the calls. *)
Definition tracked_artifacts (inputs : list input) : list Artifact :=
  flat_map (fun i => match i with
                     | Api_trackArtifact artifact => [artifact]
                     | _ => []
                     end) inputs.

(** How often [a] was passed to [trackArtifact] among the inputs. *)
Definition tracked (a : Artifact) (inputs : list input) : nat :=
  occurrences a (tracked_artifacts inputs).

(** Whether [a] was passed to [untrackArtifact] among the inputs. *)
Definition untracked (a : Artifact) (inputs : list input) : bool :=
  existsb (fun i => match i with
                    | Api_untrackArtifact artifact => same_object artifact a
                    | _ => false
                    end) inputs.

(** Each callback starts and ends before the next one starts. *)
Definition one_at_a_time (callbacks : list IdleCallback) : list event :=
  flat_map (fun cb => [IdleStart cb; IdleEnd cb]) callbacks.

(** ** What the claims say in terms of the code *)

Definition no_deviceId := "Detox Artifacts API had no deviceId at the time of calling".
Definition no_bundleId := "Detox Artifacts API had no bundleId at the time of calling".
Definition no_pid := "Detox Artifacts API had no app pid at the time of calling".

(** What an accessor makes of the field it guards. *)
Definition guarded (v : value) (message : string) : completion value :=
  if truthy v then Normal v else DetoxRuntimeError message.

(** The lifecycle events of the dispatcher: the method that handles the
    event, the hook it fans out to and the arguments of the hook.
    [onLaunchApp] fans out to [onRelaunchApp] when a device id is bound. *)
Definition lifecycle (i : input) (m : ArtifactsManager)
  : option (string * string * list value) :=
  match i with
  | Call_onBeforeAll => Some ("onBeforeAll", "onBeforeAll", [])
  | Call_onBeforeTest testSummary =>
      Some ("onBeforeTest", "onBeforeTest", [testSummary])
  | Call_onBeforeResetDevice deviceId =>
      Some ("onBeforeResetDevice", "onBeforeResetDevice",
            [VObj [("deviceId", deviceId)]])
  | Call_onResetDevice deviceId =>
      Some ("onResetDevice", "onResetDevice", [VObj [("deviceId", deviceId)]])
  | Call_onLaunchApp e =>
      if truthy (_deviceId m)
      then Some ("onLaunchApp", "onRelaunchApp", [relaunch_payload e])
      else None
  | Call_onAfterTest testSummary =>
      Some ("onAfterTest", "onAfterTest", [testSummary])
  | Call_onAfterAll => Some ("onAfterAll", "onAfterAll", [])
  | _ => None
  end.

(** ** Invariants of the machine *)

(** The run context holds what [acc] carries, or is still as constructed. *)
Definition context_is (acc : option LaunchAppEvent) (m : ArtifactsManager) : Prop :=
  match acc with
  | None =>
      _deviceId m = VStr "" /\ _bundleId m = VStr "" /\ _pid m = VNaN
  | Some e =>
      _deviceId m = deviceId e /\ _bundleId m = bundleId e /\ _pid m = pid e
  end.

(** The state of the idle chain after the callbacks [requested] were
    requested and the idle events [seen] happened: the flag of line 79 is
    unset and no callback is detached, the tail is the promise of the last
    request, the callbacks before position [settled] have started and ended
    one after the other, at most the next one is running and the rest is
    queued. *)
Definition chain_ok (requested : list IdleCallback) (seen : list event)
  (rt : runtime) : Prop :=
  (_terminated (this rt) = VUndefined /\ detached rt = []) /\
  _idlePromise (this rt) = List.length requested /\
  match in_flight rt with
  | None =>
      settled rt <= List.length requested /\
      _onIdleCallbacks (this rt) = skipn (settled rt) requested /\
      seen = one_at_a_time (firstn (settled rt) requested)
  | Some running =>
      exists cb,
        running = [cb] /\
        nth_error requested (settled rt) = Some cb /\
        _onIdleCallbacks (this rt) = skipn (S (settled rt)) requested /\
        seen = one_at_a_time (firstn (settled rt) requested) ++ [IdleStart cb]
  end.

(** The suspended bodies that return from [onAfterAll]. *)
Definition onAfterAll_cont (c : cont) : bool :=
  match c with
  | onAfterAll_150 _ | onAfterAll_151 _ => true
  | await_emit method _ => String.eqb method "onAfterAll"
  | _ => false
  end.

(** The bodies of [onAfterAll] that are suspended. *)
Definition onAfterAll_bodies (rt : runtime) : list cont :=
  filter onAfterAll_cont (awaiting rt).

(** Not the settlement of the promise of [method]. *)
Definition not_returning (method : string) (ev : event) : bool :=
  match ev with
  | Return m _ => negb (String.eqb m method)
  | _ => true
  end.

(** The promise of a fan-out that a suspended body awaits has fulfilled. *)
Definition fan_out_fulfilled (c : cont) : bool :=
  match c with
  | await_emit _ (Rejected _) => false
  | onAfterAll_150 (Rejected _) => false
  | _ => true
  end.

(** The suspended bodies that will run line 157 when resumed. *)
Definition about_to_discard (c : cont) : bool :=
  match c with
  | onTerminate_156 Fulfilled => true
  | _ => false
  end.

Definition discard_pending (rt : runtime) : nat :=
  List.length (filter about_to_discard (awaiting rt)).

(** Teardown has discarded, or will never do so: the wrapper of line 12 has
    been called and no body is left that would run line 157. *)
Definition past_discard (rt : runtime) : Prop :=
  onTerminate_called (this rt) = true /\ discard_pending rt = 0.

(** Before teardown discards, nothing has been discarded, and at most one
    body is about to. *)
Definition before_discard (evs : list event) (rt : runtime) : Prop :=
  discards evs = [] /\
  discard_pending rt <= 1 /\
  (onTerminate_called (this rt) = false -> discard_pending rt = 0).

(** ** Schedules of the run time *)

(** What the run time does next for the idle chain when nothing else
    happens: the callback in flight settles, or the next reaction runs. *)
Definition next_idle_input (rt : runtime) : option input :=
  match in_flight rt with
  | Some _ => Some (Finish 0)
  | None => if settled rt <? _idlePromise (this rt) then Some Tick else None
  end.

Fixpoint flush (fuel : nat) (rt : runtime) : list input :=
  match fuel with
  | 0 => []
  | S fuel =>
      match next_idle_input rt with
      | None => []
      | Some i =>
          match step rt i with
          | Some (rt', _) => i :: flush fuel rt'
          | None => []
          end
      end
  end.

(** Two steps for each promise of the chain that has not settled. *)
Definition drain (rt : runtime) : list input :=
  flush (2 * (_idlePromise (this rt) - settled rt)) rt.

(** Inputs that come from the run time alone. *)
Definition run_time_only (schedule : list input) : bool :=
  forallb (fun i => match i with
                    | Tick | Finish _ | Resume _ | Start => true
                    | _ => false
                    end) schedule.

(** ** Objects for the examples *)

(** A plugin whose hooks all succeed. *)
Definition quiet (n : string) : Plugin :=
  {| name := VStr n; hook := fun _ _ => Fulfils |}.

(** A plugin whose hooks all fail: [onBeforeAll] throws, the others
    reject. *)
Definition faulty (n : string) : Plugin :=
  {| name := VStr n;
     hook := fun methodName _ =>
               if String.eqb methodName "onBeforeAll"
               then Throws (VStr "not ready")
               else Rejects (VStr "device offline") |}.

(** A plugin all of whose hooks do [o]. *)
Definition plugin_that (n : string) (o : outcome) : Plugin :=
  {| name := VStr n; hook := fun _ _ => o |}.

(** An idle callback that does [o]. *)
Definition task (n : nat) (o : outcome) : IdleCallback :=
  {| fn := n; _from := VUndefined; run := o |}.

(** ** Observations for the further properties *)

(** The errors logged among the events. *)
Definition errors (evs : list event) : list event :=
  filter (fun ev => match ev with LogError _ _ _ => true | _ => false end) evs.

(** What [_errorHandler] logs for a call that did [o], for the plugin named
    [pluginName] at phase [methodName]: nothing when the call fulfilled. *)
Definition failure_log (pluginName : value) (methodName : string) (o : outcome)
  : list event :=
  match o with
  | Fulfils => []
  | Rejects e => [LogError (js_or pluginName (VStr "unknown")) methodName e]
  | Throws e => [LogError (js_or pluginName (VStr "unknown")) methodName e]
  end.

(** The plugins most recently registered among the inputs, after [acc]. *)
Definition last_registered_from (acc : list Plugin) (inputs : list input)
  : list Plugin :=
  fold_left (fun acc i => match i with
                          | Call_registerArtifactPlugins plugins => plugins
                          | _ => acc
                          end) inputs acc.

Definition last_registered (inputs : list input) : list Plugin :=
  last_registered_from [] inputs.

(** A plugin without a name. *)
Definition anonymous (o : outcome) : Plugin :=
  {| name := VUndefined; hook := fun _ _ => o |}.

(** The plugins whose [onTerminate] hook is called among the events. *)
Definition terminate_calls (evs : list event) : list Plugin :=
  flat_map (fun ev => match ev with
                      | Invoke p methodName _ =>
                          if String.eqb methodName "onTerminate" then [p] else []
                      | _ => []
                      end) evs.

(** The suspended bodies of [onTerminate]. *)
Definition teardown_cont (c : cont) : bool :=
  match c with
  | onTerminate_156 _ | onTerminate_157 _ => true
  | _ => false
  end.

Definition teardown_pending (rt : runtime) : nat :=
  List.length (filter teardown_cont (awaiting rt)).

(** How the promise of [onTerminate] settles among the events. *)
Definition teardown_returns (evs : list event) : list settlement :=
  flat_map (fun ev => match ev with
                      | Return method s =>
                          if String.eqb method "onTerminate" then [s] else []
                      | _ => []
                      end) evs.

(** The success messages of teardown among the events. *)
Definition teardown_logs (evs : list event) : list event :=
  filter (fun ev => match ev with
                    | LogInfo message =>
                        String.eqb message "terminated all artifacts"
                    | _ => false
                    end) evs.

Definition fulfilled (s : settlement) : bool :=
  match s with Fulfilled => true | Rejected _ => false end.

(** A body suspended on a fan-out belongs to a method other than
    [onTerminate]. *)
Definition fan_out_cont (c : cont) : bool :=
  match c with
  | await_emit method _ => negb (String.eqb method "onTerminate")
  | _ => true
  end.

(** What a step adds to the settlements of [onTerminate]: its promise
    comes into being with the first call. *)
Definition teardown_started (i : input) (m : ArtifactsManager) : nat :=
  match i with
  | Call_onTerminate => if onTerminate_called m then 0 else 1
  | _ => 0
  end.

(** * Properties *)

(** ** Lists *)

Section Lists.
Context {A : Type}.
Implicit Types (l : list A) (x : A) (n k : nat).

Lemma in_firstn x n l : In x (firstn n l) -> In x l.
Proof.
  intros H. rewrite <- (firstn_skipn n l). apply in_or_app. left. exact H.
Qed.

Lemma in_remove_at x k l : In x (remove_at k l) -> In x l.
Proof.
  unfold remove_at. intros H. apply in_app_or in H as [H|H].
  - apply in_firstn in H. exact H.
  - rewrite <- (firstn_skipn (S k) l). apply in_or_app. right. exact H.
Qed.

Lemma forallb_remove_at (f : A -> bool) k l :
  forallb f l = true -> forallb f (remove_at k l) = true.
Proof.
  intros H. apply forallb_forall. intros x Hx.
  apply (proj1 (forallb_forall _ _) H). apply in_remove_at in Hx. exact Hx.
Qed.

Lemma nth_error_length l n x : nth_error l n = Some x -> n < List.length l.
Proof. intros H. apply nth_error_Some. congruence. Qed.

Lemma skipn_nth l n :
  n < List.length l ->
  exists x, nth_error l n = Some x /\ skipn n l = x :: skipn (S n) l.
Proof.
  revert n. induction l as [|y l IH]; intros n Hn; [cbn in Hn; lia|].
  destruct n as [|n].
  - exists y. split; reflexivity.
  - cbn in Hn. destruct (IH n) as (x & H1 & H2); [lia|].
    exists x. split; [exact H1|exact H2].
Qed.

Lemma firstn_succ l n x :
  nth_error l n = Some x -> firstn (S n) l = firstn n l ++ [x].
Proof.
  revert n. induction l as [|y l IH]; intros [|n] H; try discriminate.
  - injection H as ->. reflexivity.
  - cbn [firstn app]. f_equal. apply IH. exact H.
Qed.

Lemma nth_error_last l x : nth_error (l ++ [x]) (List.length l) = Some x.
Proof. rewrite nth_error_app2, Nat.sub_diag by lia. reflexivity. Qed.

Lemma remove_at_last l x : remove_at (List.length l) (l ++ [x]) = l.
Proof.
  unfold remove_at. rewrite firstn_app, firstn_all, Nat.sub_diag.
  rewrite skipn_all2 by (rewrite length_app; cbn; lia).
  cbn. rewrite !app_nil_r. reflexivity.
Qed.
Lemma filter_remove_at (f : A -> bool) k l x :
  nth_error l k = Some x ->
  List.length (filter f l) =
  List.length (filter f (remove_at k l)) + (if f x then 1 else 0).
Proof.
  intros H. unfold remove_at.
  rewrite <- (firstn_skipn_middle _ _ H) at 1.
  rewrite !filter_app, !length_app. cbn [filter].
  destruct (f x); cbn [List.length]; lia.
Qed.
Lemma filter_remove_at_out (f : A -> bool) k l x :
  nth_error l k = Some x -> f x = false ->
  filter f (remove_at k l) = filter f l.
Proof.
  intros H Hx. unfold remove_at.
  pose proof (f_equal (filter f) (firstn_skipn_middle _ _ H)) as E.
  rewrite filter_app in E. cbn [filter] in E. rewrite Hx in E.
  rewrite <- E. apply filter_app.
Qed.

Lemma filter_remove_at_only (f : A -> bool) k l x y :
  nth_error l k = Some x -> f x = true -> filter f l = [y] ->
  x = y /\ filter f (remove_at k l) = [].
Proof.
  intros H Hx Hy. unfold remove_at.
  pose proof (firstn_skipn_middle _ _ H) as E.
  remember (firstn k l) as l1 eqn:E1. remember (skipn (S k) l) as l2 eqn:E2.
  clear E1 E2 H. subst l.
  rewrite filter_app in Hy |- *. cbn [filter] in Hy. rewrite Hx in Hy.
  destruct (filter f l1) as [|z l3].
  - cbn [app] in *. injection Hy as -> ->. auto.
  - cbn [app] in Hy. injection Hy as _ Hy.
    destruct l3; discriminate.
Qed.

End Lists.

(** ** Runs *)

Lemma some_pair {A B : Type} (p : A * B) (a : A) (b : B) :
  Some p = Some (a, b) -> fst p = a /\ snd p = b.
Proof. intros H. injection H as ->. split; reflexivity. Qed.

(** [H : Some p = Some (rt', out)]: replace [rt'] and [out] by the
    components of [p]. *)
Ltac some_inv H :=
  apply some_pair in H; cbn [fst snd] in H; destruct H as [<- <-].

Lemma exec_app rt is1 is2 :
  exec rt (is1 ++ is2) =
  match exec rt is1 with
  | None => None
  | Some (rt1, evs1) =>
      match exec rt1 is2 with
      | None => None
      | Some (rt2, evs2) => Some (rt2, evs1 ++ evs2)
      end
  end.
Proof.
  revert rt. induction is1 as [|i is1 IH]; intros rt; cbn [exec app].
  - destruct (exec rt is2) as [[rt2 evs2]|]; reflexivity.
  - destruct (step rt i) as [[rt1 evs1]|]; [|reflexivity].
    rewrite IH. destruct (exec rt1 is1) as [[rt2 evs2]|]; [|reflexivity].
    destruct (exec rt2 is2) as [[rt3 evs3]|]; [|reflexivity].
    rewrite app_assoc. reflexivity.
Qed.

Lemma exec_cons rt i rest rt' evs :
  exec rt (i :: rest) = Some (rt', evs) ->
  exists rt1 evs1 evs2,
    step rt i = Some (rt1, evs1) /\ exec rt1 rest = Some (rt', evs2) /\
    evs = evs1 ++ evs2.
Proof.
  cbn [exec]. destruct (step rt i) as [[rt1 evs1]|]; [|discriminate].
  destruct (exec rt1 rest) as [[rt2 evs2]|] eqn:E; [|discriminate].
  intros H. injection H as <- <-.
  exists rt1, evs1, evs2. repeat split. exact E.
Qed.

Lemma exec_step rt i rest rt1 evs1 rt2 evs2 :
  step rt i = Some (rt1, evs1) ->
  exec rt1 rest = Some (rt2, evs2) ->
  exec rt (i :: rest) = Some (rt2, evs1 ++ evs2).
Proof. intros Hs He. cbn [exec]. rewrite Hs, He. reflexivity. Qed.

(** ** Observations *)

Lemma invocations_app evs1 evs2 :
  invocations (evs1 ++ evs2) = invocations evs1 ++ invocations evs2.
Proof. apply flat_map_app. Qed.

Lemma discards_app evs1 evs2 :
  discards (evs1 ++ evs2) = discards evs1 ++ discards evs2.
Proof. apply flat_map_app. Qed.

Lemma idle_events_app evs1 evs2 :
  idle_events (evs1 ++ evs2) = idle_events evs1 ++ idle_events evs2.
Proof. apply filter_app. Qed.

Lemma rejections_app evs1 evs2 :
  rejections (evs1 ++ evs2) = rejections evs1 ++ rejections evs2.
Proof. apply flat_map_app. Qed.

Lemma requests_app is1 is2 : requests (is1 ++ is2) = requests is1 ++ requests is2.
Proof. apply flat_map_app. Qed.

Lemma one_at_a_time_app l1 l2 :
  one_at_a_time (l1 ++ l2) = one_at_a_time l1 ++ one_at_a_time l2.
Proof. apply flat_map_app. Qed.

Lemma rejections_In method e evs :
  In (Return method (Rejected e)) evs -> In method (rejections evs).
Proof.
  intros H. unfold rejections. apply in_flat_map.
  exists (Return method (Rejected e)). split; [exact H|left; reflexivity].
Qed.

Lemma hook_events_plain evs :
  forallb hook_event evs = true -> forallb plain_event evs = true.
Proof.
  intros H. apply forallb_forall. intros ev Hin.
  apply (proj1 (forallb_forall _ _) H) in Hin. destruct ev; try discriminate; reflexivity.
Qed.

Lemma discards_plain evs : forallb plain_event evs = true -> discards evs = [].
Proof.
  induction evs as [|ev evs IH]; [reflexivity|].
  cbn [forallb]. intros H. apply andb_true_iff in H as [H1 H2].
  destruct ev; try discriminate; cbn; apply IH, H2.
Qed.

Lemma idle_events_plain evs :
  forallb plain_event evs = true -> idle_events evs = [].
Proof.
  induction evs as [|ev evs IH]; [reflexivity|].
  cbn [forallb]. intros H. apply andb_true_iff in H as [H1 H2].
  destruct ev; try discriminate; cbn; apply IH, H2.
Qed.

Lemma rejections_hook_events evs :
  forallb hook_event evs = true -> rejections evs = [].
Proof.
  induction evs as [|ev evs IH]; [reflexivity|].
  cbn [forallb]. intros H. apply andb_true_iff in H as [H1 H2].
  destruct ev; try discriminate; cbn; apply IH, H2.
Qed.

Lemma rejections_map_IdleStart l : rejections (map IdleStart l) = [].
Proof. induction l; [reflexivity|assumption]. Qed.

Lemma one_at_a_time_firstn l n :
  one_at_a_time (firstn n l) = firstn (2 * n) (one_at_a_time l).
Proof.
  revert n. induction l as [|x l IH]; intros [|n]; try reflexivity.
  replace (2 * S n) with (S (S (2 * n))) by lia.
  cbn [firstn one_at_a_time flat_map app]. f_equal. f_equal. apply IH.
Qed.

Lemma one_at_a_time_started l n cb :
  nth_error l n = Some cb ->
  one_at_a_time (firstn n l) ++ [IdleStart cb] =
  firstn (S (2 * n)) (one_at_a_time l).
Proof.
  revert n. induction l as [|x l IH]; intros [|n] H; try discriminate.
  - injection H as ->. reflexivity.
  - replace (S (2 * S n)) with (S (S (S (2 * n)))) by lia.
    cbn [firstn one_at_a_time flat_map app]. f_equal. f_equal.
    apply IH. exact H.
Qed.

Lemma occurrences_app a l1 l2 :
  occurrences a (l1 ++ l2) = occurrences a l1 + occurrences a l2.
Proof. unfold occurrences. rewrite filter_app. apply length_app. Qed.

Lemma occurrences_firstn a n l :
  occurrences a (firstn n l) <= occurrences a l.
Proof.
  rewrite <- (firstn_skipn n l) at 2. rewrite occurrences_app. lia.
Qed.

(** ** Promises and fan-out (lines 155-169) *)

Lemma try_await_fulfils call handler : snd (try_await call handler) = Fulfilled.
Proof. destruct call; reflexivity. Qed.

Lemma _emit_plugin_fulfils methodName args plugin :
  snd (_emit_plugin methodName args plugin) = Fulfilled.
Proof.
  unfold _emit_plugin.
  pose proof (try_await_fulfils (hook plugin methodName args)
                (fun e => _errorHandler e (name plugin) methodName)) as H.
  destruct (try_await _ _); exact H.
Qed.

Lemma _emit_plugin_invocations methodName args plugin :
  invocations (fst (_emit_plugin methodName args plugin)) =
  [(plugin, methodName, args)].
Proof.
  unfold _emit_plugin, try_await, _errorHandler.
  destruct (hook plugin methodName args); reflexivity.
Qed.

Lemma _emit_fulfils methodName args m :
  snd (_emit methodName args m) = Fulfilled.
Proof.
  unfold _emit. cbn [snd].
  induction (_artifactPlugins m) as [|p ps IH]; [reflexivity|].
  cbn [map Promise_all]. rewrite _emit_plugin_fulfils. exact IH.
Qed.

Lemma _emit_invocations methodName args m :
  invocations (fst (_emit methodName args m)) =
  map (fun p => (p, methodName, args)) (_artifactPlugins m).
Proof.
  unfold _emit. cbn [fst].
  induction (_artifactPlugins m) as [|p ps IH]; [reflexivity|].
  cbn [map concat]. rewrite invocations_app, _emit_plugin_invocations, IH.
  reflexivity.
Qed.

Lemma _emit_hook_events methodName args m :
  forallb hook_event (fst (_emit methodName args m)) = true.
Proof.
  unfold _emit. cbn [fst].
  induction (_artifactPlugins m) as [|p ps IH]; [reflexivity|].
  cbn [map concat]. rewrite forallb_app, IH, andb_true_r.
  unfold _emit_plugin, try_await, _errorHandler.
  destruct (hook p methodName args); reflexivity.
Qed.

Lemma map_calls_prefix calls :
  exists n, fst (map_calls calls) = firstn n (map fst calls).
Proof.
  induction calls as [|[ev o] rest [n IH]].
  - exists 0. reflexivity.
  - destruct o.
    + exists (S n). cbn [map_calls]. destruct (map_calls rest) as [evs r].
      cbn [fst] in *. rewrite IH. reflexivity.
    + exists (S n). cbn [map_calls]. destruct (map_calls rest) as [evs r].
      cbn [fst] in *. rewrite IH. reflexivity.
    + exists 1. reflexivity.
Qed.

Lemma map_calls_all calls :
  (forall ev o e, In (ev, o) calls -> o <> Throws e) ->
  exists promises, map_calls calls = (map fst calls, inl promises).
Proof.
  induction calls as [|[ev o] rest IH]; intros Hn.
  - exists []. reflexivity.
  - destruct IH as [ps IH].
    { intros ev' o' e' Hin. apply (Hn ev'). right. exact Hin. }
    destruct o as [|e|e].
    + exists (Fulfilled :: ps). cbn [map_calls]. rewrite IH. reflexivity.
    + exists (Rejected e :: ps). cbn [map_calls]. rewrite IH. reflexivity.
    + exfalso. apply (Hn ev (Throws e) e); [left; reflexivity|reflexivity].
Qed.

Lemma onTerminate_body_hook_events m :
  forallb hook_event (fst (onTerminate_body m)) = true.
Proof.
  unfold onTerminate_body.
  destruct (map_calls_prefix
              (map (fun plugin => (Invoke plugin "onTerminate" [], hook plugin "onTerminate" []))
                   (_artifactPlugins m))) as [n Hn].
  destruct (map_calls _) as [evs [ps|e]]; cbn [fst] in *; subst evs.
  all: rewrite map_map; cbn [fst];
    apply forallb_forall; intros ev Hin; apply in_firstn in Hin;
    apply in_map_iff in Hin as [p [<- _]]; reflexivity.
Qed.

Lemma onTerminate_discard_discards m :
  exists n, discards (fst (onTerminate_discard m)) = firstn n (_activeArtifacts m).
Proof.
  unfold onTerminate_discard.
  destruct (map_calls_prefix
              (map (fun artifact => (Discard artifact, discard artifact))
                   (_activeArtifacts m))) as [n Hn].
  exists n.
  destruct (map_calls _) as [evs [ps|e]]; cbn [fst] in *; subst evs.
  all: rewrite map_map; cbn [fst]; clear;
    revert n; induction (_activeArtifacts m) as [|a l IH]; intros [|n];
    try reflexivity; cbn [map firstn discards flat_map app]; f_equal; apply IH.
Qed.

Lemma onTerminate_discard_all m :
  (forall x e, In x (_activeArtifacts m) -> discard x <> Throws e) ->
  discards (fst (onTerminate_discard m)) = _activeArtifacts m.
Proof.
  intros Hn. unfold onTerminate_discard.
  destruct (map_calls_all
              (map (fun artifact => (Discard artifact, discard artifact))
                   (_activeArtifacts m))) as [ps Hp].
  { intros ev o e Hin. apply in_map_iff in Hin as [x [Hx Hin]].
    injection Hx as _ <-. apply Hn, Hin. }
  rewrite Hp. cbn [fst]. rewrite map_map. cbn [fst]. clear.
  induction (_activeArtifacts m) as [|a l IH]; [reflexivity|].
  cbn. f_equal. exact IH.
Qed.

Lemma idle_events_discard m :
  idle_events (fst (onTerminate_discard m)) = [].
Proof.
  unfold onTerminate_discard.
  destruct (map_calls_prefix
              (map (fun artifact => (Discard artifact, discard artifact))
                   (_activeArtifacts m))) as [n Hn].
  destruct (map_calls _) as [evs [ps|e]]; cbn [fst] in *; subst evs.
  all: rewrite map_map; cbn [fst]; revert n;
    induction (_activeArtifacts m) as [|a l IH]; intros [|n];
    try reflexivity; cbn [map firstn idle_events filter]; apply IH.
Qed.

Lemma rejections_discard m :
  rejections (fst (onTerminate_discard m)) = [].
Proof.
  unfold onTerminate_discard.
  destruct (map_calls_prefix
              (map (fun artifact => (Discard artifact, discard artifact))
                   (_activeArtifacts m))) as [n Hn].
  destruct (map_calls _) as [evs [ps|e]]; cbn [fst] in *; subst evs.
  all: rewrite map_map; cbn [fst]; revert n;
    induction (_activeArtifacts m) as [|a l IH]; intros [|n];
    try reflexivity; cbn [map firstn rejections flat_map app]; apply IH.
Qed.

(** ** What one step does *)

(** Unfold, in [H], the methods whose body is one fan-out. *)
Ltac unfold_fan_outs H :=
  unfold onBeforeAll, onBeforeTest, onBeforeResetDevice, onResetDevice,
    onAfterTest, onAfterAll in H.

(** [H] holds a fan-out [_emit n a m]: name its result and go on with
    [tac n a m]. *)
Ltac on_fan_out H tac :=
  match type of H with
  | context [_emit ?n ?a ?m] => tac n a m
  end.

Lemma proceed_this method evs pr rt :
  this (fst (proceed method evs pr rt)) = this rt.
Proof. destruct pr; reflexivity. Qed.

Lemma proceed_idle method evs pr rt :
  settled (fst (proceed method evs pr rt)) = settled rt /\
  in_flight (fst (proceed method evs pr rt)) = in_flight rt.
Proof. destruct pr; split; reflexivity. Qed.

Lemma invocations_proceed method evs pr rt :
  invocations (snd (proceed method evs pr rt)) = invocations evs.
Proof.
  destruct pr; cbn [proceed snd]; [reflexivity|].
  rewrite invocations_app. cbn. apply app_nil_r.
Qed.

Lemma discards_proceed method evs pr rt :
  discards (snd (proceed method evs pr rt)) = discards evs.
Proof.
  destruct pr; cbn [proceed snd]; [reflexivity|].
  rewrite discards_app. cbn. apply app_nil_r.
Qed.

Lemma idle_events_proceed method evs pr rt :
  idle_events (snd (proceed method evs pr rt)) = idle_events evs.
Proof.
  destruct pr; cbn [proceed snd]; [reflexivity|].
  rewrite idle_events_app. cbn. apply app_nil_r.
Qed.

Lemma proceed_plain method evs pr rt :
  forallb plain_event evs = true ->
  forallb plain_event (snd (proceed method evs pr rt)) = true.
Proof.
  intros H. destruct pr; cbn [proceed snd]; [exact H|].
  rewrite forallb_app, H. reflexivity.
Qed.

(** What [proceed] leaves behind. *)
Lemma proceed_conts method evs pr rt :
  forallb fan_out_fulfilled (awaiting rt) = true ->
  match pr with Await c => fan_out_fulfilled c = true | Done _ => True end ->
  forallb fan_out_fulfilled (awaiting (fst (proceed method evs pr rt))) = true.
Proof.
  intros H Hc. destruct pr; cbn [proceed fst awaiting with_awaiting]; [|exact H].
  rewrite forallb_app, H. cbn. rewrite Hc. reflexivity.
Qed.

Lemma proceed_rejections method evs pr rt :
  rejections (snd (proceed method evs pr rt)) =
  rejections evs ++
  match pr with Done (Rejected _) => [method] | _ => [] end.
Proof.
  destruct pr as [c|[|e]]; cbn [proceed snd].
  - symmetry. apply app_nil_r.
  - rewrite rejections_app. reflexivity.
  - rewrite rejections_app. reflexivity.
Qed.

Lemma resume_this c rt rt' evs :
  resume c rt = Some (rt', evs) -> this rt' = this rt.
Proof.
  destruct c as [m s|[|e]|t|[|e]|[|e]]; cbn [resume]; intros H.
  all: try (some_inv H; apply proceed_this).
  - destruct (t <=? settled rt); [some_inv H; apply proceed_this | discriminate].
  - destruct (onTerminate_discard (this rt)) as [evs0 pr].
    some_inv H. apply proceed_this.
Qed.

Lemma start_inv rt rt' out :
  start rt = Some (rt', out) ->
  exists cb rest,
    detached rt = cb :: rest /\ rt' = with_detached rest rt /\
    out = [IdleStart cb].
Proof.
  unfold start. destruct (detached rt) as [|cb rest]; [discriminate|].
  intros H. some_inv H. exists cb, rest. auto.
Qed.

Lemma step_this rt i rt' evs :
  step rt i = Some (rt', evs) -> this rt' = this_after i (this rt).
Proof.
  intros H. destruct i; cbn [step this_after] in *;
    try (some_inv H; reflexivity).
  - destruct (onLaunchApp e (this rt)) as [[m evs0] pr].
    some_inv H. rewrite proceed_this. reflexivity.
  - destruct (onTerminate (this rt)) as [[m evs0] [pr|]];
      some_inv H; [rewrite proceed_this|]; reflexivity.
  - unfold tick in H. destruct (in_flight rt); [discriminate|].
    destruct (settled rt <? _idlePromise (this rt)); [|discriminate].
    destruct (idle_reaction (this rt)) as [m started].
    some_inv H. destruct started; [|destruct (truthy _)]; reflexivity.
  - unfold finish in H. destruct (in_flight rt) as [running|]; [|discriminate].
    destruct (_ <? _); [|discriminate].
    destruct (nth_error running i) as [cb|]; [|discriminate].
    destruct (try_await _ _) as [logged s].
    some_inv H. destruct (remove_at i running); reflexivity.
  - destruct (nth_error (awaiting rt) i) as [c|]; [|discriminate].
    apply resume_this in H. exact H.
  - apply start_inv in H as (cb & rest & _ & -> & _). reflexivity.
Qed.

Lemma tick_awaiting rt rt' out :
  tick rt = Some (rt', out) -> awaiting rt' = awaiting rt.
Proof.
  unfold tick. destruct (in_flight rt); [discriminate|].
  destruct (_ <? _); [|discriminate].
  destruct (idle_reaction (this rt)) as [m started]. intros H. some_inv H.
  destruct started; [|destruct (truthy _)]; reflexivity.
Qed.

Lemma finish_awaiting k rt rt' out :
  finish k rt = Some (rt', out) -> awaiting rt' = awaiting rt.
Proof.
  unfold finish. destruct (in_flight rt) as [running|]; [|discriminate].
  destruct (_ <? _); [|discriminate].
  destruct (nth_error running k); [|discriminate].
  destruct (try_await _ _). intros H. some_inv H.
  destruct (remove_at k running); reflexivity.
Qed.

Lemma start_awaiting rt rt' out :
  start rt = Some (rt', out) -> awaiting rt' = awaiting rt.
Proof. intros H. apply start_inv in H as (cb & rest & _ & -> & _). reflexivity. Qed.

Lemma discards_starts started : discards (map IdleStart started) = [].
Proof. induction started; [reflexivity|assumption]. Qed.

(** What a step can be observed to do: calls of the manager's methods and
    of [artifactsApi] only call hooks, log and return; the reaction of the
    idle chain only starts idle callbacks; only line 157 discards. *)
Lemma step_events rt i rt' out :
  step rt i = Some (rt', out) ->
  match i with
  | Tick | Start => exists started, out = map IdleStart started
  | Finish k =>
      exists running cb,
        in_flight rt = Some running /\ nth_error running k = Some cb /\
        out = IdleEnd cb ::
              fst (try_await (run cb) (fun e => _idleCallbackErrorHandle e cb))
  | Resume k =>
      forallb plain_event out = true \/
      (nth_error (awaiting rt) k = Some (onTerminate_156 Fulfilled) /\
       discards out = discards (fst (onTerminate_discard (this rt))))
  | _ => forallb plain_event out = true
  end.
Proof.
  assert (Hemit : forall methodName args m,
             forallb plain_event (fst (_emit methodName args m)) = true).
  { intros. apply hook_events_plain, _emit_hook_events. }
  intros H. destruct i; cbn [step] in H; unfold_fan_outs H;
    try (some_inv H; reflexivity);
    try (on_fan_out H ltac:(fun n a m =>
           pose proof (Hemit n a m) as He; destruct (_emit n a m);
           some_inv H; apply proceed_plain, He)).
  - (* onLaunchApp *)
    unfold onLaunchApp in H. destruct (negb (negb _)).
    + on_fan_out H ltac:(fun n a m =>
        pose proof (Hemit n a m) as He; destruct (_emit n a m)).
      some_inv H. apply proceed_plain, He.
    + some_inv H. reflexivity.
  - (* onTerminate *)
    unfold onTerminate in H. destruct (onTerminate_called (this rt)).
    + some_inv H. reflexivity.
    + pose proof (onTerminate_body_hook_events
                    (set_onTerminate_called true (this rt))) as He.
      apply hook_events_plain in He.
      destruct (onTerminate_body _). some_inv H. apply proceed_plain, He.
  - (* the reaction of line 79 *)
    unfold tick in H. destruct (in_flight rt); [discriminate|].
    destruct (_ <? _); [|discriminate].
    destruct (idle_reaction (this rt)) as [m started]. some_inv H.
    destruct (truthy _); [exists []|exists started]; reflexivity.
  - (* an idle callback settles *)
    unfold finish in H. destruct (in_flight rt) as [running|]; [|discriminate].
    destruct (_ <? _); [|discriminate].
    destruct (nth_error running i) as [cb|] eqn:E; [|discriminate].
    exists running, cb. destruct (try_await _ _). some_inv H. auto.
  - (* a suspended body continues *)
    destruct (nth_error (awaiting rt) i) as [c|]; [|discriminate].
    destruct c as [m s|[|e]|t|[|e]|[|e]]; cbn [resume] in H.
    all: try (left; some_inv H; apply proceed_plain; reflexivity).
    + left. destruct (t <=? _); [|discriminate].
      some_inv H. apply proceed_plain. reflexivity.
    + right. split; [reflexivity|]. cbn [with_awaiting this] in H.
      destruct (onTerminate_discard (this rt)). some_inv H.
      apply discards_proceed.
  - (* a detached callback starts *)
    apply start_inv in H as (cb & rest & _ & _ & ->). exists [cb]. reflexivity.
Qed.

(** Only line 157 discards, and only artifacts of the live set. *)
Lemma step_discards rt i rt' out x :
  step rt i = Some (rt', out) ->
  In x (discards out) -> In x (_activeArtifacts (this rt)).
Proof.
  intros H Hin. apply step_events in H.
  assert (Hp : forallb plain_event out = true -> False).
  { intros Hp. rewrite (discards_plain _ Hp) in Hin. exact Hin. }
  destruct i; try (exfalso; exact (Hp H)).
  - destruct H as [started ->]. exfalso. clear Hp.
    induction started; [exact Hin|auto].
  - destruct H as (running & cb & _ & _ & ->). exfalso.
    unfold try_await, _idleCallbackErrorHandle, _errorHandler in Hin.
    destruct (run cb); exact Hin.
  - destruct H as [H|[_ H]]; [exfalso; exact (Hp H)|].
    rewrite H in Hin.
    destruct (onTerminate_discard_discards (this rt)) as [n Hn].
    rewrite Hn in Hin. apply in_firstn in Hin. exact Hin.
  - destruct H as [started ->]. exfalso. clear Hp.
    induction started; [exact Hin|auto].
Qed.

(** Only [Tick] and [Finish] touch the run-time side of the chain. *)
Lemma step_idle_state rt i rt' out :
  step rt i = Some (rt', out) ->
  match i with
  | Tick | Finish _ | Start => True
  | _ => settled rt' = settled rt /\ in_flight rt' = in_flight rt /\
         idle_events out = []
  end.
Proof.
  intros H. pose proof (step_events _ _ _ _ H) as He.
  destruct i; try exact I.
  all: try (apply idle_events_plain in He).
  all: cbn [step] in H.
  all: try (some_inv H; auto; fail).
  - destruct (onLaunchApp _ _) as [[m evs0] pr]. some_inv H.
    destruct (proceed_idle "onLaunchApp" evs0 pr (with_this m rt)) as [-> ->]. auto.
  - destruct (onTerminate _) as [[m evs0] [pr|]]; some_inv H.
    + destruct (proceed_idle "onTerminate" evs0 pr (with_this m rt)) as [-> ->]. auto.
    + auto.
  - destruct (nth_error (awaiting rt) i) as [c|]; [|discriminate].
    assert (Hidle : forall method evs0 pr rt0,
               settled rt0 = settled rt -> in_flight rt0 = in_flight rt ->
               idle_events evs0 = [] ->
               settled (fst (proceed method evs0 pr rt0)) = settled rt /\
               in_flight (fst (proceed method evs0 pr rt0)) = in_flight rt /\
               idle_events (snd (proceed method evs0 pr rt0)) = []).
    { intros method evs0 pr rt0 Hs Hf Hev.
      destruct (proceed_idle method evs0 pr rt0) as [-> ->].
      rewrite idle_events_proceed. auto. }
    destruct c as [m s|[|e]|t|[|e]|[|e]]; cbn [resume] in H.
    all: try (some_inv H; apply Hidle; reflexivity).
    + destruct (t <=? _); [|discriminate]. some_inv H. apply Hidle; reflexivity.
    + cbn [with_awaiting this] in H.
      pose proof (idle_events_discard (this rt)) as Hd.
      destruct (onTerminate_discard (this rt)) as [evs0 pr]. some_inv H.
      apply Hidle; [reflexivity|reflexivity|exact Hd].
Qed.

Lemma proceed_detached method evs pr rt :
  detached (fst (proceed method evs pr rt)) = detached rt.
Proof. destruct pr; reflexivity. Qed.

(** Only a forced reaction detaches callbacks, and only [Start] starts a
    detached one. *)
Lemma step_detached rt i rt' out :
  step rt i = Some (rt', out) ->
  match i with
  | Tick => truthy (_terminated (this rt)) = false -> detached rt' = detached rt
  | Start => exists cb, detached rt = cb :: detached rt'
  | _ => detached rt' = detached rt
  end.
Proof.
  intros H. destruct i; cbn [step] in H;
    try (some_inv H; reflexivity);
    try (some_inv H; rewrite proceed_detached; reflexivity).
  - destruct (onLaunchApp e (this rt)) as [[m evs0] pr].
    some_inv H. rewrite proceed_detached; reflexivity.
  - destruct (onTerminate (this rt)) as [[m evs0] [pr|]];
      some_inv H; [rewrite proceed_detached|]; reflexivity.
  - intros Hf. unfold tick in H. rewrite Hf in H.
    destruct (in_flight rt); [discriminate|].
    destruct (_ <? _); [|discriminate].
    destruct (idle_reaction (this rt)) as [m taken].
    some_inv H. destruct taken; reflexivity.
  - unfold finish in H. destruct (in_flight rt) as [running|]; [|discriminate].
    destruct (_ <? _); [|discriminate].
    destruct (nth_error running i) as [cb|]; [|discriminate].
    destruct (try_await _ _) as [logged s].
    some_inv H. destruct (remove_at i running); reflexivity.
  - destruct (nth_error (awaiting rt) i) as [c|]; [|discriminate].
    destruct c as [m s|[|e]|t|[|e]|[|e]]; cbn [resume] in H;
      try (some_inv H; rewrite proceed_detached; reflexivity).
    + destruct (t <=? _); [|discriminate]. some_inv H. rewrite proceed_detached; reflexivity.
    + destruct (onTerminate_discard _) as [evs0 pr]. some_inv H.
      rewrite proceed_detached; reflexivity.
  - apply start_inv in H as (cb & rest & Hd & -> & _). exists cb. exact Hd.
Qed.

(** What a fan-out does in one step of the machine: the hook of every
    registered plugin is called once, and the method is suspended on a
    promise that has fulfilled. *)
Lemma fan_out_step rt rt0 i method hookName args (k : settlement -> cont) :
  awaiting rt0 = awaiting rt ->
  _artifactPlugins (this rt0) = _artifactPlugins (this rt) ->
  step rt i =
    (let (evs0, s) := _emit hookName args (this rt0) in
     Some (proceed method evs0 (Await (k s)) rt0)) ->
  exists out,
    step rt i = Some (with_awaiting (awaiting rt ++ [k Fulfilled]) rt0, out) /\
    invocations out =
      map (fun p => (p, hookName, args)) (_artifactPlugins (this rt)).
Proof.
  intros Ha Hp ->.
  pose proof (_emit_fulfils hookName args (this rt0)) as Hf.
  pose proof (_emit_invocations hookName args (this rt0)) as Hi.
  destruct (_emit hookName args (this rt0)) as [evs0 s].
  cbn [fst snd] in Hf, Hi. subst s. rewrite Hp in Hi.
  exists evs0. cbn [proceed]. rewrite Ha. split; [reflexivity|exact Hi].
Qed.

Lemma proceed_pending method evs pr rt :
  discard_pending (fst (proceed method evs pr rt)) =
  discard_pending rt +
  match pr with
  | Await c => if about_to_discard c then 1 else 0
  | Done _ => 0
  end.
Proof.
  unfold discard_pending. destruct pr as [c|s]; cbn [proceed fst awaiting with_awaiting].
  - rewrite filter_app, length_app. cbn [filter].
    destruct (about_to_discard c); reflexivity.
  - lia.
Qed.

(** How a step changes the number of bodies about to discard, and whether
    it discards. *)
Lemma step_pending rt i rt' out :
  step rt i = Some (rt', out) ->
  match i with
  | Call_onTerminate =>
      discards out = [] /\
      if onTerminate_called (this rt)
      then discard_pending rt' = discard_pending rt
      else discard_pending rt' <= discard_pending rt + 1
  | Resume k =>
      match nth_error (awaiting rt) k with
      | Some (onTerminate_156 Fulfilled) =>
          S (discard_pending rt') = discard_pending rt
      | _ => discard_pending rt' = discard_pending rt /\ discards out = []
      end
  | _ => discard_pending rt' = discard_pending rt /\ discards out = []
  end.
Proof.
  intros H. pose proof (step_events _ _ _ _ H) as He.
  destruct i; try (apply discards_plain in He); cbn [step] in H.
  all: try (some_inv H; split; [reflexivity|exact He]; fail).
  all: unfold_fan_outs H.
  all: try (on_fan_out H ltac:(fun n a m => destruct (_emit n a m));
            some_inv H; split; [|exact He];
            rewrite proceed_pending; cbn; lia).
  - (* onLaunchApp *)
    unfold onLaunchApp in H. destruct (negb (negb _)).
    + destruct (_emit _ _ _). some_inv H. split; [|exact He].
      rewrite proceed_pending. cbn. unfold discard_pending. cbn. lia.
    + some_inv H. split; [reflexivity|exact He].
  - (* onTerminate *)
    split; [exact He|]. unfold onTerminate in H.
    destruct (onTerminate_called (this rt)).
    + some_inv H. reflexivity.
    + destruct (onTerminate_body _) as [evs0 pr]. some_inv H.
      rewrite proceed_pending. unfold discard_pending at 1. cbn [with_this awaiting].
      fold (discard_pending rt).
      destruct pr as [c|s]; [destruct (about_to_discard c)|]; lia.
  - (* the reaction of line 79 *)
    split.
    + unfold discard_pending. rewrite (tick_awaiting _ _ _ H). reflexivity.
    + destruct He as [started ->]. apply discards_starts.
  - (* an idle callback settles *)
    split.
    + unfold discard_pending. rewrite (finish_awaiting _ _ _ _ H). reflexivity.
    + destruct He as (running & cb & _ & _ & ->).
      unfold try_await, _idleCallbackErrorHandle, _errorHandler.
      destruct (run cb); reflexivity.
  - (* a suspended body continues *)
    destruct (nth_error (awaiting rt) i) as [c|] eqn:Hn; [|discriminate].
    pose proof (filter_remove_at about_to_discard _ _ _ Hn) as Hf.
    fold (discard_pending rt) in Hf.
    change (List.length (filter about_to_discard (remove_at i (awaiting rt))))
      with (discard_pending (with_awaiting (remove_at i (awaiting rt)) rt)) in Hf.
    destruct c as [m s|[|e]|t|[|e]|[|e]]; cbn [resume] in H;
      cbn [about_to_discard] in Hf.
    all: try (some_inv H; rewrite proceed_pending, discards_proceed;
              cbn [about_to_discard]; split; [lia|reflexivity]).
    + destruct (t <=? _); [|discriminate]. some_inv H.
      rewrite proceed_pending, discards_proceed; split; [lia|reflexivity].
    + destruct (onTerminate_discard _) as [evs0 pr] eqn:Hd. some_inv H.
      rewrite proceed_pending.
      unfold onTerminate_discard in Hd.
      destruct (map_calls _) as [? [?|?]]; injection Hd as _ <-;
        cbn [about_to_discard]; lia.
  - (* a detached callback starts *)
    split.
    + unfold discard_pending. rewrite (start_awaiting _ _ _ H). reflexivity.
    + destruct He as [started ->]. apply discards_starts.
Qed.

(** ** What one step does to the fields *)

Lemma onLaunchApp_context e m :
  let m' := fst (fst (onLaunchApp e m)) in
  _deviceId m' = deviceId e /\ _bundleId m' = bundleId e /\ _pid m' = pid e.
Proof.
  unfold onLaunchApp. destruct (negb (negb (truthy (_deviceId m)))).
  - destruct (_emit _ _ _). cbn. auto.
  - cbn. auto.
Qed.

Lemma this_after_context i m :
  match i with
  | Call_onLaunchApp e => context_is (Some e) (this_after i m)
  | _ => _deviceId (this_after i m) = _deviceId m /\
         _bundleId (this_after i m) = _bundleId m /\
         _pid (this_after i m) = _pid m
  end.
Proof.
  destruct i; cbn [this_after]; try (repeat split; reflexivity).
  - apply onLaunchApp_context.
  - unfold onTerminate. destruct (onTerminate_called m); [cbn; auto|].
    destruct (onTerminate_body _). cbn. auto.
  - unfold idle_reaction, _runAllIdleTasks, _runNextIdleTask.
    destruct (truthy (_terminated m)); [cbn; auto|].
    destruct (_onIdleCallbacks m); cbn; auto.
Qed.

Lemma this_after_called i m :
  onTerminate_called m = true ->
  onTerminate_called (this_after i m) = true.
Proof.
  intros Hm. destruct i; cbn [this_after]; try exact Hm.
  - unfold onLaunchApp. destruct (negb (negb _)); [destruct (_emit _ _ _)|]; exact Hm.
  - unfold onTerminate. rewrite Hm. exact Hm.
  - unfold idle_reaction, _runAllIdleTasks, _runNextIdleTask.
    destruct (truthy _); [exact Hm|]. destruct (_onIdleCallbacks m); exact Hm.
Qed.

Lemma onTerminate_sets_called m :
  onTerminate_called (fst (fst (onTerminate m))) = true.
Proof.
  unfold onTerminate. destruct (onTerminate_called m) eqn:E; [exact E|].
  destruct (onTerminate_body _). reflexivity.
Qed.

Lemma onTerminate_again rt :
  onTerminate_called (this rt) = true ->
  step rt Call_onTerminate = Some (rt, []).
Proof.
  intros Hc. cbn [step]. unfold onTerminate. rewrite Hc.
  destruct rt; reflexivity.
Qed.

Lemma this_after_active i m :
  _activeArtifacts (this_after i m) =
  match i with
  | Api_trackArtifact x => _activeArtifacts m ++ [x]
  | _ => _activeArtifacts m
  end.
Proof.
  destruct i; cbn [this_after]; try reflexivity.
  - unfold onLaunchApp. destruct (negb (negb _)); [destruct (_emit _ _ _)|]; reflexivity.
  - unfold onTerminate. destruct (onTerminate_called m); [reflexivity|].
    destruct (onTerminate_body _). reflexivity.
  - unfold idle_reaction, _runAllIdleTasks, _runNextIdleTask.
    destruct (truthy _); [reflexivity|]. destruct (_onIdleCallbacks m); reflexivity.
Qed.

Lemma this_after_chain i m :
  _terminated (this_after i m) = _terminated m /\
  match i with
  | Api_requestIdleCallback callback caller =>
      _idlePromise (this_after i m) = S (_idlePromise m) /\
      _onIdleCallbacks (this_after i m) =
      _onIdleCallbacks m ++ [set_from callback (name caller)]
  | Tick => True
  | _ =>
      _idlePromise (this_after i m) = _idlePromise m /\
      _onIdleCallbacks (this_after i m) = _onIdleCallbacks m
  end.
Proof.
  destruct i; cbn [this_after]; try (repeat split; reflexivity).
  - unfold onLaunchApp. destruct (negb (negb _)); [destruct (_emit _ _ _)|];
      repeat split; reflexivity.
  - unfold onTerminate. destruct (onTerminate_called m); [repeat split; reflexivity|].
    destruct (onTerminate_body _). repeat split; reflexivity.
  - unfold idle_reaction, _runAllIdleTasks, _runNextIdleTask.
    destruct (truthy _); [repeat split; reflexivity|].
    destruct (_onIdleCallbacks m); repeat split; reflexivity.
Qed.

(** ** What holds along every run *)

Lemma context_of_run inputs :
  forall acc rt rt' evs,
    context_is acc (this rt) ->
    exec rt inputs = Some (rt', evs) ->
    context_is (last_launch_from acc inputs) (this rt').
Proof.
  induction inputs as [|i rest IH]; intros acc rt rt' evs Hc H.
  - injection H as <- _. exact Hc.
  - apply exec_cons in H as (rt1 & evs1 & evs2 & Hs & He & _).
    cbn [last_launch_from fold_left].
    eapply IH; [|exact He].
    apply step_this in Hs. rewrite Hs.
    pose proof (this_after_context i (this rt)) as Hi.
    destruct i; try exact Hi;
      destruct acc as [e0|]; cbn [context_is] in *;
      destruct Hi as (-> & -> & ->); exact Hc.
Qed.

Lemma called_of_run inputs :
  forall rt rt' evs,
    exec rt inputs = Some (rt', evs) ->
    onTerminate_called (this rt) = true \/ In Call_onTerminate inputs ->
    onTerminate_called (this rt') = true.
Proof.
  induction inputs as [|i rest IH]; intros rt rt' evs H Hc.
  - injection H as <- _. destruct Hc as [Hc|[]]. exact Hc.
  - apply exec_cons in H as (rt1 & evs1 & evs2 & Hs & He & _).
    apply (IH _ _ _ He). apply step_this in Hs.
    destruct Hc as [Hc|[->|Hin]].
    + left. rewrite Hs. apply this_after_called, Hc.
    + left. rewrite Hs. apply onTerminate_sets_called.
    + right. exact Hin.
Qed.

(** The live set after a run: what it was, then every artifact passed to
    [trackArtifact] during the run.  Nothing removes an artifact from it. *)
Lemma live_of_run inputs :
  forall rt rt' evs,
    exec rt inputs = Some (rt', evs) ->
    _activeArtifacts (this rt') =
    _activeArtifacts (this rt) ++ tracked_artifacts inputs.
Proof.
  induction inputs as [|i rest IH]; intros rt rt' evs H.
  - injection H as <- _. cbn. symmetry. apply app_nil_r.
  - apply exec_cons in H as (rt1 & evs1 & evs2 & Hs & He & _).
    rewrite (IH _ _ _ He). apply step_this in Hs.
    rewrite Hs, this_after_active.
    destruct i; cbn [tracked_artifacts flat_map app]; try reflexivity.
    rewrite <- app_assoc. reflexivity.
Qed.

(** The flag read at line 79 is never set: no method writes [_terminated]. *)
Lemma terminated_never_set inputs :
  forall rt rt' evs,
    exec rt inputs = Some (rt', evs) ->
    _terminated (this rt') = _terminated (this rt).
Proof.
  induction inputs as [|i rest IH]; intros rt rt' evs H.
  - injection H as <- _. reflexivity.
  - apply exec_cons in H as (rt1 & evs1 & evs2 & Hs & He & _).
    rewrite (IH _ _ _ He). apply step_this in Hs. rewrite Hs.
    apply this_after_chain.
Qed.

(** So the reaction of the chain is the cooperative one in every state a
    fresh manager reaches, whether or not [onTerminate] has been invoked. *)
Lemma idle_reaction_cooperative inputs rt evs :
  exec boot inputs = Some (rt, evs) ->
  idle_reaction (this rt) = _runNextIdleTask (this rt).
Proof.
  intros H. unfold idle_reaction.
  rewrite (terminated_never_set _ _ _ _ H). reflexivity.
Qed.

(** Only the promise of [onTerminate] can reject. *)
Lemma step_rejections rt i rt' out :
  forallb fan_out_fulfilled (awaiting rt) = true ->
  step rt i = Some (rt', out) ->
  forallb fan_out_fulfilled (awaiting rt') = true /\
  (forall method, In method (rejections out) -> method = "onTerminate").
Proof.
  intros Hc H.
  assert (Hemit : forall rt0 method c methodName args m evs s,
             forallb fan_out_fulfilled (awaiting rt0) = true ->
             _emit methodName args m = (evs, s) ->
             (c = await_emit method s \/ c = onAfterAll_150 s) ->
             forallb fan_out_fulfilled
               (awaiting (fst (proceed method evs (Await c) rt0))) = true /\
             (forall x, In x (rejections (snd (proceed method evs (Await c) rt0))) ->
                        x = "onTerminate")).
  { clear. intros rt method c methodName args m evs s Hc He Hcs.
    pose proof (_emit_fulfils methodName args m) as Hf.
    pose proof (_emit_hook_events methodName args m) as Hh.
    rewrite He in Hf, Hh. cbn [fst snd] in Hf, Hh. subst s. split.
    - apply proceed_conts; [exact Hc|]. destruct Hcs as [-> | ->]; reflexivity.
    - rewrite proceed_rejections, (rejections_hook_events _ Hh). intros x []. }
  destruct i; cbn [step] in H; unfold_fan_outs H;
    try (some_inv H; split; [exact Hc|intros x []]; fail);
    try (on_fan_out H ltac:(fun n a m =>
           destruct (_emit n a m) as [evs0 s] eqn:He; some_inv H;
           eapply Hemit;
           [exact Hc|exact He|(left; reflexivity) || (right; reflexivity)])).
  - (* onLaunchApp *)
    unfold onLaunchApp in H. destruct (negb (negb _)).
    + destruct (_emit _ _ _) as [evs0 s] eqn:He. some_inv H.
      eapply Hemit; [exact Hc|exact He|left; reflexivity].
    + some_inv H. split; [exact Hc|intros x []].
  - (* onTerminate *)
    unfold onTerminate in H. destruct (onTerminate_called (this rt)).
    + some_inv H. split; [exact Hc|intros x []].
    + pose proof (onTerminate_body_hook_events
                    (set_onTerminate_called true (this rt))) as Hh.
      destruct (onTerminate_body _) as [evs0 pr] eqn:Hb. cbn [fst] in Hh.
      some_inv H. split.
      * apply proceed_conts; [exact Hc|].
        unfold onTerminate_body in Hb.
        destruct (map_calls _) as [? [?|?]]; injection Hb as _ <-; reflexivity.
      * rewrite proceed_rejections, (rejections_hook_events _ Hh).
        cbn [app]. intros x Hx.
        destruct pr as [c|[|e]]; cbn in Hx;
          [contradiction|contradiction|destruct Hx as [<-|[]]; reflexivity].
  - (* the reaction of line 79 *)
    pose proof (tick_awaiting _ _ _ H) as Ha. rewrite Ha. split; [exact Hc|].
    unfold tick in H. destruct (in_flight rt); [discriminate|].
    destruct (_ <? _); [|discriminate].
    destruct (idle_reaction (this rt)) as [m started]. some_inv H.
    destruct (truthy _); [intros x []|].
    rewrite rejections_map_IdleStart. intros x [].
  - (* an idle callback settles *)
    pose proof (finish_awaiting _ _ _ _ H) as Ha. rewrite Ha. split; [exact Hc|].
    unfold finish in H. destruct (in_flight rt) as [running|]; [|discriminate].
    destruct (_ <? _); [|discriminate].
    destruct (nth_error running i) as [cb|]; [|discriminate].
    unfold try_await, _idleCallbackErrorHandle, _errorHandler in H.
    destruct (run cb); some_inv H; intros x [].
  - (* a suspended body continues *)
    destruct (nth_error (awaiting rt) i) as [c|] eqn:Hn; [|discriminate].
    assert (Hcc : fan_out_fulfilled c = true).
    { apply nth_error_In in Hn.
      apply (proj1 (forallb_forall _ _) Hc), Hn. }
    pose proof (forallb_remove_at _ i _ Hc) as Hc'.
    set (rt0 := with_awaiting (remove_at i (awaiting rt)) rt) in *.
    change (forallb fan_out_fulfilled (awaiting rt0) = true) in Hc'.
    destruct c as [m s|[|e]|t|[|e]|[|e]]; cbn [resume] in H;
      try discriminate Hcc.
    + destruct s; [|discriminate Hcc]. some_inv H. split.
      * apply proceed_conts; [exact Hc'|exact I].
      * rewrite proceed_rejections. intros x [].
    + some_inv H. split.
      * apply proceed_conts; [exact Hc'|reflexivity].
      * rewrite proceed_rejections. intros x [].
    + destruct (t <=? _); [|discriminate]. some_inv H. split.
      * apply proceed_conts; [exact Hc'|exact I].
      * rewrite proceed_rejections. intros x [].
    + pose proof (rejections_discard (this rt0)) as Hr.
      destruct (onTerminate_discard (this rt0)) as [evs0 pr] eqn:Hd.
      some_inv H. split.
      * apply proceed_conts; [exact Hc'|].
        unfold onTerminate_discard in Hd.
        destruct (map_calls _) as [? [?|?]]; injection Hd as _ <-; reflexivity.
      * rewrite proceed_rejections. cbn [fst] in Hr. rewrite Hr. cbn [app].
        intros x Hx.
        destruct pr as [c|[|e0]]; cbn in Hx;
          [contradiction|contradiction|destruct Hx as [<-|[]]; reflexivity].
    + some_inv H. split.
      * apply proceed_conts; [exact Hc'|exact I].
      * rewrite proceed_rejections. intros x [<-|[]]. reflexivity.
    + some_inv H. split.
      * apply proceed_conts; [exact Hc'|exact I].
      * rewrite proceed_rejections. intros x [].
    + some_inv H. split.
      * apply proceed_conts; [exact Hc'|exact I].
      * rewrite proceed_rejections. intros x [<-|[]]. reflexivity.
  - (* a detached callback starts *)
    apply start_inv in H as (cb & rest & _ & -> & ->).
    split; [exact Hc|intros x []].
Qed.

Lemma run_rejections inputs :
  forall rt rt' evs,
    forallb fan_out_fulfilled (awaiting rt) = true ->
    exec rt inputs = Some (rt', evs) ->
    forallb fan_out_fulfilled (awaiting rt') = true /\
    (forall method, In method (rejections evs) -> method = "onTerminate").
Proof.
  induction inputs as [|i rest IH]; intros rt rt' evs Hc H.
  - injection H as <- <-. split; [exact Hc|intros x []].
  - apply exec_cons in H as (rt1 & evs1 & evs2 & Hs & He & ->).
    destruct (step_rejections _ _ _ _ Hc Hs) as [Hc1 Hr1].
    destruct (IH _ _ _ Hc1 He) as [Hc2 Hr2]. split; [exact Hc2|].
    intros x Hx. rewrite rejections_app in Hx.
    apply in_app_or in Hx as [Hx|Hx]; [apply Hr1, Hx|apply Hr2, Hx].
Qed.

(** ** Teardown along every run (lines 155-159) *)

Lemma step_called rt i rt' out :
  step rt i = Some (rt', out) ->
  onTerminate_called (this rt) = true -> onTerminate_called (this rt') = true.
Proof.
  intros H Hc. apply step_this in H. rewrite H. apply this_after_called, Hc.
Qed.

(** Once teardown is past its discard step, nothing is discarded any more. *)
Lemma past_discard_step rt i rt' out :
  past_discard rt ->
  step rt i = Some (rt', out) ->
  past_discard rt' /\ discards out = [].
Proof.
  intros [Hc Hp] H. pose proof (step_pending _ _ _ _ H) as Hs.
  pose proof (step_called _ _ _ _ H Hc) as Hc'. unfold past_discard.
  destruct i; try (destruct Hs as [-> ->]; auto; fail).
  - rewrite Hc in Hs. destruct Hs as [-> ->]. auto.
  - destruct (nth_error (awaiting rt) i) as [c|]; [|destruct Hs as [-> ->]; auto].
    destruct c as [m s|s|t|[|e]|s];
      try (match type of Hs with _ /\ _ => destruct Hs as [-> ->]; auto end).
    lia.
Qed.

Lemma past_discard_run inputs :
  forall rt rt' evs,
    past_discard rt ->
    exec rt inputs = Some (rt', evs) ->
    past_discard rt' /\ discards evs = [].
Proof.
  induction inputs as [|i rest IH]; intros rt rt' evs Hp H.
  - injection H as <- <-. auto.
  - apply exec_cons in H as (rt1 & evs1 & evs2 & Hs & He & ->).
    destruct (past_discard_step _ _ _ _ Hp Hs) as [Hp1 Hd1].
    destruct (IH _ _ _ Hp1 He) as [Hp2 Hd2].
    rewrite discards_app, Hd1, Hd2. auto.
Qed.

(** Until teardown runs its discard step, nothing is discarded. *)
Lemma before_discard_step evs rt i rt' out :
  before_discard evs rt ->
  step rt i = Some (rt', out) ->
  before_discard (evs ++ out) rt' \/
  (exists k, i = Resume k /\
             nth_error (awaiting rt) k = Some (onTerminate_156 Fulfilled)).
Proof.
  intros (Hd & Hp & Hn) H. pose proof (step_pending _ _ _ _ H) as Hs.
  assert (Hmono : onTerminate_called (this rt') = false ->
                  onTerminate_called (this rt) = false).
  { intros Hf. destruct (onTerminate_called (this rt)) eqn:E; [|reflexivity].
    rewrite (step_called _ _ _ _ H E) in Hf. discriminate. }
  assert (Hsame : discard_pending rt' = discard_pending rt /\ discards out = [] ->
                  before_discard (evs ++ out) rt').
  { intros [Hp' Hd']. unfold before_discard.
    rewrite discards_app, Hd, Hd', Hp'. auto. }
  destruct i; try (left; apply Hsame, Hs; fail).
  - (* onTerminate *)
    left. destruct Hs as [Hd' Hs]. unfold before_discard.
    rewrite discards_app, Hd, Hd'. split; [reflexivity|].
    destruct (onTerminate_called (this rt)) eqn:E.
    + rewrite Hs. split; [exact Hp|]. intros Hf. apply Hmono in Hf. discriminate.
    + specialize (Hn eq_refl). split; [lia|]. intros Hf.
      apply step_this in H. rewrite H in Hf. cbn [this_after] in Hf.
      rewrite onTerminate_sets_called in Hf. discriminate.
  - (* a suspended body continues *)
    destruct (nth_error (awaiting rt) i) as [[m s|s|t|[|e]|s]|] eqn:E;
      try (left; apply Hsame, Hs; fail).
    right. exists i. auto.
Qed.

(** Teardown discards at most once in a run: before its discard step
    nothing has been discarded and exactly one body is about to run it. *)
Lemma before_discard_run inputs :
  forall evs0 rt rt' evs,
    before_discard evs0 rt ->
    exec rt inputs = Some (rt', evs) ->
    before_discard (evs0 ++ evs) rt' \/ past_discard rt'.
Proof.
  induction inputs as [|i rest IH]; intros evs0 rt rt' evs Hb H.
  - injection H as <- <-. rewrite app_nil_r. left. exact Hb.
  - apply exec_cons in H as (rt1 & evs1 & evs2 & Hs & He & ->).
    destruct (before_discard_step _ _ _ _ _ Hb Hs) as [Hb1|(k & -> & Hk)].
    + rewrite app_assoc. apply (IH _ _ _ _ Hb1 He).
    + right. apply (past_discard_run rest rt1 rt' evs2); [|exact He].
      pose proof (step_pending _ _ _ _ Hs) as Hp. cbn beta iota in Hp.
      rewrite Hk in Hp. destruct Hb as (_ & Hle & Hn). split.
      * apply (step_called _ _ _ _ Hs).
        destruct (onTerminate_called (this rt)); [reflexivity|].
        specialize (Hn eq_refl). lia.
      * lia.
Qed.

Lemma before_discard_boot : before_discard [] boot.
Proof. repeat split. cbn. lia. Qed.

(** ** The idle chain along every run (lines 74-104) *)

Lemma chain_ok_boot : chain_ok [] [] boot.
Proof. repeat split. cbn. lia. Qed.

(** Every step keeps the chain in order. *)
Lemma chain_step requested seen rt i rt' out :
  chain_ok requested seen rt ->
  step rt i = Some (rt', out) ->
  chain_ok (requested ++ requests [i]) (seen ++ idle_events out) rt'.
Proof.
  intros ((Ht & Hdet) & Hp & Hc) H.
  pose proof (step_this _ _ _ _ H) as Hthis.
  pose proof (step_detached _ _ _ _ H) as Hdet'.
  pose proof (step_idle_state _ _ _ _ H) as Hidle.
  pose proof (this_after_chain i (this rt)) as [Hterm Hq].
  assert (Hsame :
            settled rt' = settled rt -> in_flight rt' = in_flight rt ->
            detached rt' = detached rt ->
            idle_events out = [] -> requests [i] = [] ->
            _idlePromise (this_after i (this rt)) = _idlePromise (this rt) /\
            _onIdleCallbacks (this_after i (this rt)) = _onIdleCallbacks (this rt) ->
            chain_ok (requested ++ requests [i]) (seen ++ idle_events out) rt').
  { intros Hs Hf Hd -> -> [Hp' Hq']. rewrite !app_nil_r.
    unfold chain_ok. rewrite Hthis, Hterm, Hp', Hq', Hs, Hf, Hd. auto. }
  destruct i;
    try (destruct Hidle as (Hs & Hf & He); apply Hsame; auto; fail).
  - (* requestIdleCallback *)
    destruct Hidle as (Hs & Hf & He). destruct Hq as [Hp' Hq'].
    unfold chain_ok. rewrite Hthis, Hterm, Hp', Hq', Hs, Hf, He, app_nil_r.
    cbn [requests flat_map]. rewrite app_nil_r, length_app. cbn [List.length].
    rewrite Hdet'. split; [split; [exact Ht|exact Hdet]|]. split; [lia|].
    destruct (in_flight rt) as [running|].
    + destruct Hc as (cb & -> & Hn & Hqueue & Hseen). exists cb.
      pose proof (nth_error_length _ _ _ Hn) as Hlt.
      split; [reflexivity|]. split; [|split].
      * rewrite nth_error_app1; [exact Hn|exact Hlt].
      * rewrite Hqueue, skipn_app.
        replace (S (settled rt) - List.length requested) with 0 by lia.
        reflexivity.
      * rewrite Hseen, firstn_app.
        replace (settled rt - List.length requested) with 0 by lia.
        cbn [firstn]. rewrite app_nil_r. reflexivity.
    + destruct Hc as (Hle & Hqueue & Hseen).
      split; [lia|]. split.
      * rewrite Hqueue, skipn_app.
        replace (settled rt - List.length requested) with 0 by lia.
        reflexivity.
      * rewrite Hseen, firstn_app.
        replace (settled rt - List.length requested) with 0 by lia.
        cbn [firstn]. rewrite app_nil_r. reflexivity.
  - (* the reaction of line 79 *)
    clear Hsame Hidle Hq Hterm Hthis Hdet'. cbn [step requests flat_map] in *.
    rewrite app_nil_r. unfold tick in H.
    destruct (in_flight rt) as [running|]; [discriminate|].
    destruct Hc as (Hle & Hqueue & Hseen).
    destruct (settled rt <? _idlePromise (this rt)) eqn:Hlt; [|discriminate].
    apply Nat.ltb_lt in Hlt. rewrite Hp in Hlt.
    destruct (skipn_nth requested (settled rt) Hlt) as (cb & Hn & Hsk).
    unfold idle_reaction, _runNextIdleTask in H.
    rewrite Ht, Hqueue, Hsk in H. cbn [truthy] in H. cbn beta iota zeta in H.
    some_inv H. cbn [map idle_events filter].
    unfold chain_ok. cbn. split; [split; [exact Ht|exact Hdet]|].
    split; [exact Hp|].
    exists cb. rewrite Hseen. auto.
  - (* an idle callback settles *)
    clear Hsame Hidle Hq Hterm Hthis Hdet'. cbn [step requests flat_map] in *.
    rewrite app_nil_r. unfold finish in H.
    destruct (in_flight rt) as [running|]; [|discriminate].
    destruct Hc as (cb & -> & Hn & Hqueue & Hseen).
    rewrite Hdet in H.
    destruct i as [|i]; [|discriminate].
    cbn [List.length Nat.sub Nat.ltb Nat.leb] in H.
    cbn [nth_error remove_at firstn skipn app] in H.
    assert (Hlog : idle_events
                     (fst (try_await (run cb)
                             (fun e => _idleCallbackErrorHandle e cb))) = []).
    { unfold try_await, _idleCallbackErrorHandle, _errorHandler.
      destruct (run cb); reflexivity. }
    destruct (try_await _ _) as [logged s]. some_inv H.
    cbn [fst] in Hlog. cbn [idle_events filter]. fold (idle_events logged).
    rewrite Hlog.
    pose proof (nth_error_length _ _ _ Hn) as Hlt.
    unfold chain_ok. cbn [with_idle with_this this settled in_flight detached].
    split; [split; [exact Ht|exact Hdet]|]. split; [exact Hp|].
    split; [lia|]. split; [exact Hqueue|].
    rewrite Hseen, (firstn_succ _ _ _ Hn), one_at_a_time_app, <- app_assoc.
    reflexivity.
  - (* no callback is detached *)
    destruct Hdet' as [cb Hd]. rewrite Hdet in Hd. discriminate.
Qed.

Lemma chain_run inputs :
  forall requested seen rt rt' evs,
    chain_ok requested seen rt ->
    exec rt inputs = Some (rt', evs) ->
    chain_ok (requested ++ requests inputs) (seen ++ idle_events evs) rt'.
Proof.
  induction inputs as [|i rest IH]; intros requested seen rt rt' evs Hc H.
  - injection H as <- <-. cbn. rewrite !app_nil_r. exact Hc.
  - apply exec_cons in H as (rt1 & evs1 & evs2 & Hs & He & ->).
    change (i :: rest) with ([i] ++ rest).
    rewrite requests_app, idle_events_app, !app_assoc.
    apply (IH _ _ _ _ _ (chain_step _ _ _ _ _ _ Hc Hs) He).
Qed.

Lemma chain_of_run inputs rt evs :
  exec boot inputs = Some (rt, evs) ->
  chain_ok (requests inputs) (idle_events evs) rt.
Proof. apply (chain_run inputs [] [] boot rt evs chain_ok_boot). Qed.

(** What has happened on the chain is always an initial part of "each
    requested callback, in request order, from start to end". *)
Lemma chain_ok_prefix requested seen rt :
  chain_ok requested seen rt ->
  exists n, seen = firstn n (one_at_a_time requested).
Proof.
  intros (_ & _ & Hc). destruct (in_flight rt).
  - destruct Hc as (cb & _ & Hn & _ & ->).
    exists (S (2 * settled rt)). apply one_at_a_time_started, Hn.
  - destruct Hc as (_ & _ & ->).
    exists (2 * settled rt). apply one_at_a_time_firstn.
Qed.

(** ** Draining the chain *)

Lemma flush_run_time_only fuel : forall rt, run_time_only (flush fuel rt) = true.
Proof.
  induction fuel as [|fuel IH]; intros rt; [reflexivity|].
  cbn [flush]. unfold next_idle_input.
  destruct (in_flight rt).
  - destruct (step rt (Finish 0)) as [[rt' out]|]; [|reflexivity].
    cbn. apply IH.
  - destruct (_ <? _); [|reflexivity].
    destruct (step rt Tick) as [[rt' out]|]; [|reflexivity].
    cbn. apply IH.
Qed.

Lemma flush_drains fuel :
  forall requested seen rt,
    chain_ok requested seen rt ->
    2 * (List.length requested - settled rt) <=
      fuel + (match in_flight rt with Some _ => 1 | None => 0 end) ->
    exists rt' evs,
      exec rt (flush fuel rt) = Some (rt', evs) /\
      chain_ok requested (seen ++ idle_events evs) rt' /\
      in_flight rt' = None /\
      settled rt' = List.length requested /\
      awaiting rt' = awaiting rt.
Proof.
  induction fuel as [|fuel IH]; intros requested seen rt Hc Hfuel.
  - exists rt, []. cbn [flush exec idle_events filter]. rewrite app_nil_r.
    destruct Hc as ((Ht & Hdet) & Hp & Hc).
    destruct (in_flight rt) as [running|] eqn:E.
    + destruct Hc as (cb & _ & Hn & _). apply nth_error_length in Hn. lia.
    + destruct Hc as (Hle & Hq & Hs).
      repeat split; try assumption; try lia.
      unfold chain_ok. rewrite E. auto.
  - cbn [flush]. unfold next_idle_input.
    pose proof Hc as ((Ht & Hdet) & Hp & Hc').
    destruct (in_flight rt) as [running|] eqn:E.
    + destruct Hc' as (cb & -> & Hn & Hq & Hs).
      pose proof (nth_error_length _ _ _ Hn) as Hlt.
      destruct (step rt (Finish 0)) as [[rt1 out]|] eqn:Hstep.
      2:{ cbn [step] in Hstep. unfold finish in Hstep. rewrite E, Hdet in Hstep.
          cbn [nth_error List.length Nat.sub Nat.ltb Nat.leb] in Hstep.
          destruct (try_await _ _). discriminate. }
      pose proof (chain_step _ _ _ _ _ _ Hc Hstep) as Hc1.
      cbn [requests flat_map] in Hc1. rewrite app_nil_r in Hc1.
      pose proof (finish_awaiting _ _ _ _ Hstep) as Ha.
      assert (Hrt1 : in_flight rt1 = None /\ settled rt1 = S (settled rt)).
      { cbn [step] in Hstep. unfold finish in Hstep. rewrite E, Hdet in Hstep.
        cbn [nth_error remove_at firstn skipn app
             List.length Nat.sub Nat.ltb Nat.leb] in Hstep.
        destruct (try_await _ _). some_inv Hstep. split; reflexivity. }
      destruct Hrt1 as [Hf1 Hs1].
      destruct (IH requested (seen ++ idle_events out) rt1 Hc1)
        as (rt' & evs & He & Hc2 & Hf & Hsett & Haw).
      { rewrite Hf1, Hs1. lia. }
      exists rt', (out ++ evs). cbn [exec]. rewrite Hstep, He.
      rewrite idle_events_app, app_assoc.
      split; [reflexivity|]. split; [exact Hc2|]. split; [exact Hf|].
      split; [exact Hsett|congruence].
    + destruct Hc' as (Hle & Hq & Hs).
      destruct (settled rt <? _idlePromise (this rt)) eqn:Hlt.
      * destruct (step rt Tick) as [[rt1 out]|] eqn:Hstep.
        2:{ cbn [step] in Hstep. unfold tick in Hstep.
            rewrite E, Hlt in Hstep.
            destruct (idle_reaction (this rt)). discriminate. }
        pose proof (chain_step _ _ _ _ _ _ Hc Hstep) as Hc1.
        cbn [requests flat_map] in Hc1. rewrite app_nil_r in Hc1.
        pose proof (tick_awaiting _ _ _ Hstep) as Ha.
        assert (Hrt1 : in_flight rt1 <> None /\ settled rt1 = settled rt).
        { apply Nat.ltb_lt in Hlt. rewrite Hp in Hlt.
          destruct (skipn_nth requested (settled rt) Hlt) as (cb & Hn & Hsk).
          cbn [step] in Hstep. unfold tick in Hstep.
          rewrite E in Hstep.
          destruct (settled rt <? _idlePromise (this rt)); [|discriminate].
          unfold idle_reaction, _runNextIdleTask in Hstep.
          rewrite Ht, Hq, Hsk in Hstep. cbn [truthy] in Hstep.
          cbn beta iota zeta in Hstep.
          some_inv Hstep. split; [discriminate|reflexivity]. }
        destruct Hrt1 as [Hf1 Hs1].
        destruct (IH requested (seen ++ idle_events out) rt1 Hc1)
          as (rt' & evs & He & Hc2 & Hf & Hsett & Haw).
        { rewrite Hs1. destruct (in_flight rt1); [lia|congruence]. }
        exists rt', (out ++ evs). cbn [exec]. rewrite Hstep, He.
        rewrite idle_events_app, app_assoc.
        split; [reflexivity|]. split; [exact Hc2|]. split; [exact Hf|].
        split; [exact Hsett|congruence].
      * exists rt, []. cbn [exec idle_events filter]. rewrite app_nil_r.
        apply Nat.ltb_ge in Hlt.
        repeat split; try assumption; try lia.
        unfold chain_ok. rewrite E. auto.
Qed.

(** Left to itself, the run time settles the whole chain: every callback
    requested so far starts and ends. *)
Lemma drain_settles requested seen rt :
  chain_ok requested seen rt ->
  exists rt' evs,
    exec rt (drain rt) = Some (rt', evs) /\
    seen ++ idle_events evs = one_at_a_time requested /\
    in_flight rt' = None /\
    settled rt' = List.length requested /\
    awaiting rt' = awaiting rt.
Proof.
  intros Hc. unfold drain.
  destruct (flush_drains (2 * (_idlePromise (this rt) - settled rt))
              requested seen rt Hc)
    as (rt' & evs & He & Hc2 & Hf & Hs & Ha).
  { destruct Hc as (_ & -> & _). lia. }
  exists rt', evs. repeat split; try assumption.
  destruct Hc2 as (_ & _ & Hc2). rewrite Hf in Hc2.
  destruct Hc2 as (_ & _ & ->). rewrite Hs, firstn_all. reflexivity.
Qed.

(** A method suspended on a plain fan-out returns as soon as it is
    resumed. *)
Lemma await_emit_returns method rt :
  let rt1 := with_awaiting (awaiting rt ++ [await_emit method Fulfilled]) rt in
  exists schedule rt2 evs2,
    run_time_only schedule = true /\
    exec rt1 schedule = Some (rt2, evs2) /\
    In (Return method Fulfilled) evs2.
Proof.
  intros rt1. exists [Resume (List.length (awaiting rt))].
  eexists. eexists. split; [reflexivity|]. split.
  - cbn [exec step]. unfold rt1. cbn [awaiting with_awaiting].
    rewrite nth_error_last, remove_at_last. cbn [resume proceed]. reflexivity.
  - left. reflexivity.
Qed.

(** [onAfterAll] returns once the idle chain has been drained. *)
Lemma onAfterAll_returns inputs rt evs evs0 :
  exec boot inputs = Some (rt, evs) ->
  onAfterAll (this rt) = (evs0, Await (onAfterAll_150 Fulfilled)) ->
  let rt1 := with_awaiting (awaiting rt ++ [onAfterAll_150 Fulfilled]) rt in
  exists schedule rt2 evs2,
    run_time_only schedule = true /\
    exec rt1 schedule = Some (rt2, evs2) /\
    In (Return "onAfterAll" Fulfilled) evs2.
Proof.
  intros H Ha rt1.
  set (n := List.length (awaiting rt)).
  set (rt1' := with_awaiting
                 (awaiting rt ++ [onAfterAll_151 (_idlePromise (this rt))]) rt).
  assert (Hs1 : step rt1 (Resume n) = Some (rt1', [])).
  { cbn [step]. unfold rt1, n. cbn [awaiting with_awaiting].
    rewrite nth_error_last, remove_at_last. reflexivity. }
  assert (Hrun : exec boot (inputs ++ [Call_onAfterAll; Resume n]) =
                 Some (rt1', evs ++ evs0 ++ [])).
  { rewrite exec_app, H.
    rewrite (exec_step rt Call_onAfterAll [Resume n] rt1 evs0 rt1' []).
    - reflexivity.
    - cbn [step]. rewrite Ha. reflexivity.
    - rewrite (exec_step rt1 (Resume n) [] rt1' [] rt1' [] Hs1 eq_refl).
      reflexivity. }
  pose proof (chain_of_run _ _ _ Hrun) as Hc.
  destruct (drain_settles _ _ _ Hc) as (rt2 & evs2 & He & _ & _ & Hsett & Haw).
  assert (Htail : _idlePromise (this rt) =
                  List.length (requests (inputs ++ [Call_onAfterAll; Resume n]))).
  { destruct Hc as (_ & Hp & _). exact Hp. }
  exists (Resume n :: drain rt1' ++ [Resume n]).
  eexists. eexists. split; [|split].
  - cbn. unfold run_time_only, drain. rewrite forallb_app.
    fold (run_time_only (flush (2 * (_idlePromise (this rt1') - settled rt1')) rt1')).
    rewrite flush_run_time_only. reflexivity.
  - cbn [exec]. rewrite Hs1, exec_app, He. cbn [exec step].
    rewrite Haw. unfold rt1', n. cbn [awaiting with_awaiting].
    rewrite nth_error_last, remove_at_last. cbn [resume with_awaiting settled].
    rewrite Hsett, <- Htail, Nat.leb_refl. cbn [proceed]. reflexivity.
  - cbn [app]. apply in_or_app. right. right. left. reflexivity.
Qed.

(** ** The body of onAfterAll along every run (lines 149-153) *)

Lemma hook_events_not_returning method evs :
  forallb hook_event evs = true -> forallb (not_returning method) evs = true.
Proof.
  intros H. apply forallb_forall. intros ev Hin.
  apply (proj1 (forallb_forall _ _) H) in Hin.
  destruct ev; try discriminate; reflexivity.
Qed.

Lemma discard_not_returning method m :
  forallb (not_returning method) (fst (onTerminate_discard m)) = true.
Proof.
  unfold onTerminate_discard.
  destruct (map_calls_prefix
              (map (fun artifact => (Discard artifact, discard artifact))
                   (_activeArtifacts m))) as [n Hn].
  destruct (map_calls _) as [evs [ps|e]]; cbn [fst] in *; subst evs.
  all: rewrite map_map; cbn [fst]; apply forallb_forall; intros ev Hin;
    apply in_firstn in Hin; apply in_map_iff in Hin as [a [<- _]]; reflexivity.
Qed.

(** What [proceed] adds for a method other than [onAfterAll]. *)
Lemma proceed_other method evs pr rt :
  forallb (not_returning "onAfterAll") evs = true ->
  String.eqb method "onAfterAll" = false ->
  match pr with Await c => onAfterAll_cont c = false | Done _ => True end ->
  onAfterAll_bodies (fst (proceed method evs pr rt)) = onAfterAll_bodies rt /\
  forallb (not_returning "onAfterAll") (snd (proceed method evs pr rt)) = true.
Proof.
  intros He Hm Hpr. unfold onAfterAll_bodies.
  destruct pr as [c|s]; cbn [proceed fst snd awaiting with_awaiting].
  - rewrite filter_app. cbn [filter]. rewrite Hpr, app_nil_r. auto.
  - rewrite forallb_app, He. cbn. rewrite Hm. auto.
Qed.

(** State the goal about the state that [proceed] started from. *)
Ltac on_proceeded rt :=
  match goal with
  | |- context [proceed _ _ _ ?r] =>
      change (onAfterAll_bodies rt) with (onAfterAll_bodies r)
  end.

(** A step that is neither a call of [onAfterAll] nor the resumption of one
    of its bodies leaves these bodies as they are, and [onAfterAll] does not
    return in it. *)
Lemma step_other rt i rt' out :
  i <> Call_onAfterAll ->
  step rt i = Some (rt', out) ->
  (onAfterAll_bodies rt' = onAfterAll_bodies rt /\
   forallb (not_returning "onAfterAll") out = true) \/
  (exists k c, i = Resume k /\ nth_error (awaiting rt) k = Some c /\
               onAfterAll_cont c = true).
Proof.
  intros Hi H.
  assert (Hemit : forall n a m, forallb (not_returning "onAfterAll")
                                  (fst (_emit n a m)) = true).
  { intros. apply hook_events_not_returning, _emit_hook_events. }
  assert (Hidle : awaiting rt' = awaiting rt ->
                  (exists started, out = map IdleStart started) ->
                  onAfterAll_bodies rt' = onAfterAll_bodies rt /\
                  forallb (not_returning "onAfterAll") out = true).
  { intros Ha [started ->]. unfold onAfterAll_bodies. rewrite Ha.
    split; [reflexivity|]. clear. induction started; [reflexivity|assumption]. }
  pose proof (step_events _ _ _ _ H) as Hev.
  destruct i; cbn [step] in H; unfold_fan_outs H;
    try (left; some_inv H; split; reflexivity);
    try (left; on_fan_out H ltac:(fun n a m =>
           pose proof (Hemit n a m) as He; destruct (_emit n a m));
         some_inv H; apply proceed_other; [exact He|reflexivity|reflexivity]).
  - (* onLaunchApp *)
    left. unfold onLaunchApp in H. destruct (negb (negb _)).
    + on_fan_out H ltac:(fun n a m =>
        pose proof (Hemit n a m) as He; destruct (_emit n a m)).
      some_inv H.
      on_proceeded rt. apply proceed_other; [exact He|reflexivity|reflexivity].
    + some_inv H.
      on_proceeded rt. apply proceed_other; [reflexivity|reflexivity|exact I].
  - (* onAfterAll *)
    contradiction.
  - (* onTerminate *)
    left. unfold onTerminate in H. destruct (onTerminate_called (this rt)).
    + some_inv H. split; reflexivity.
    + pose proof (onTerminate_body_hook_events
                    (set_onTerminate_called true (this rt))) as He.
      apply (hook_events_not_returning "onAfterAll") in He.
      destruct (onTerminate_body _) as [evs0 pr] eqn:Hb. some_inv H.
      on_proceeded rt. apply proceed_other; [exact He|reflexivity|].
      unfold onTerminate_body in Hb.
      destruct (map_calls _) as [? [?|?]]; injection Hb as _ <-; reflexivity.
  - (* the reaction of line 79 *)
    left. apply Hidle; [exact (tick_awaiting _ _ _ H)|exact Hev].
  - (* an idle callback settles *)
    left. pose proof (finish_awaiting _ _ _ _ H) as Ha.
    unfold onAfterAll_bodies. rewrite Ha. split; [reflexivity|].
    destruct Hev as (running & cb & _ & _ & ->).
    unfold try_await, _idleCallbackErrorHandle, _errorHandler.
    destruct (run cb); reflexivity.
  - (* a suspended body continues *)
    destruct (nth_error (awaiting rt) i) as [c|] eqn:Hn; [|discriminate].
    destruct (onAfterAll_cont c) eqn:Hc; [right; exists i, c; auto|left].
    pose proof (filter_remove_at_out onAfterAll_cont _ _ _ Hn Hc) as Hf.
    set (rt0 := with_awaiting (remove_at i (awaiting rt)) rt) in *.
    change (onAfterAll_bodies rt0 = onAfterAll_bodies rt) in Hf.
    rewrite <- Hf.
    destruct c as [m s|[|e]|t|[|e]|[|e]]; cbn [resume] in H;
      try discriminate Hc; cbn [onAfterAll_cont] in Hc.
    + some_inv H. apply proceed_other; [reflexivity|exact Hc|exact I].
    + pose proof (discard_not_returning "onAfterAll" (this rt0)) as Hd.
      destruct (onTerminate_discard (this rt0)) as [evs0 pr] eqn:Hdis.
      some_inv H. apply proceed_other; [exact Hd|reflexivity|].
      unfold onTerminate_discard in Hdis.
      destruct (map_calls _) as [? [?|?]]; injection Hdis as _ <-; reflexivity.
    + some_inv H. apply proceed_other; [reflexivity|reflexivity|exact I].
    + some_inv H. apply proceed_other; [reflexivity|reflexivity|exact I].
    + some_inv H. apply proceed_other; [reflexivity|reflexivity|exact I].
  - (* a detached callback starts *)
    left. apply Hidle; [exact (start_awaiting _ _ _ H)|exact Hev].
Qed.

Lemma split_quiet method out evs' pre s post :
  forallb (not_returning method) out = true ->
  out ++ evs' = pre ++ Return method s :: post ->
  exists pre', pre = out ++ pre' /\ evs' = pre' ++ Return method s :: post.
Proof.
  revert pre. induction out as [|e out IH]; intros pre Hq E.
  - exists pre. auto.
  - cbn [forallb] in Hq. apply andb_true_iff in Hq as [He Hq].
    destruct pre as [|e' pre]; cbn [app] in E.
    + injection E as -> _. cbn in He. rewrite String.eqb_refl in He. discriminate.
    + injection E as -> E. destruct (IH pre Hq E) as (pre' & -> & ->).
      exists pre'. auto.
Qed.

Lemma quiet_no_return method evs pre s post :
  forallb (not_returning method) evs = true ->
  evs <> pre ++ Return method s :: post.
Proof.
  intros Hq E. rewrite <- (app_nil_r evs) in E.
  destruct (split_quiet _ _ _ _ _ _ Hq E) as (pre' & _ & E').
  destruct pre'; discriminate.
Qed.

Lemma no_bodies rt :
  forallb (fun c => negb (onAfterAll_cont c)) (awaiting rt) = true ->
  onAfterAll_bodies rt = [].
Proof.
  unfold onAfterAll_bodies. induction (awaiting rt) as [|c l IH]; [reflexivity|].
  cbn [forallb filter]. intros H. apply andb_true_iff in H as [Hc Hl].
  apply negb_true_iff in Hc. rewrite Hc. apply IH, Hl.
Qed.

(** Once the body of [onAfterAll] has returned and the method is not called
    again, it does not return again. *)
Lemma returned_run later :
  forall rt rt' evs,
    onAfterAll_bodies rt = [] ->
    ~ In Call_onAfterAll later ->
    exec rt later = Some (rt', evs) ->
    forallb (not_returning "onAfterAll") evs = true.
Proof.
  induction later as [|i rest IH]; intros rt rt' evs Hb Hn H.
  - injection H as _ <-. reflexivity.
  - apply exec_cons in H as (rt1 & out & evs2 & Hs & He & ->).
    assert (Hi : i <> Call_onAfterAll) by (intros ->; apply Hn; left; reflexivity).
    assert (Hr : ~ In Call_onAfterAll rest) by (intros Hin; apply Hn; right; exact Hin).
    destruct (step_other _ _ _ _ Hi Hs) as [[Hb1 Hq]|(k & c & _ & Hk & Hc)].
    + rewrite forallb_app, Hq. cbn [andb]. apply (IH rt1 rt' evs2); [|exact Hr|exact He].
      rewrite Hb1. exact Hb.
    + exfalso. apply nth_error_In in Hk.
      assert (Hin : In c (onAfterAll_bodies rt)).
      { apply filter_In. split; [exact Hk|exact Hc]. }
      rewrite Hb in Hin. exact Hin.
Qed.

(** The body suspended at line 151 returns only when resumed, which takes
    the tail it awaits to have settled. *)
Lemma awaiting_chain_run after :
  forall rt tail rt' evs pre s post,
    onAfterAll_bodies rt = [onAfterAll_151 tail] ->
    ~ In Call_onAfterAll after ->
    exec rt after = Some (rt', evs) ->
    evs = pre ++ Return "onAfterAll" s :: post ->
    s = Fulfilled /\
    exists a1 j a2 rt3 evs3,
      after = a1 ++ Resume j :: a2 /\
      exec rt a1 = Some (rt3, evs3) /\
      tail <= settled rt3 /\
      pre = evs3 ++ [LogVerbose "finalized artifacts successfully"].
Proof.
  induction after as [|i rest IH]; intros rt tail rt' evs pre s post Hb Hn H E.
  - injection H as _ <-. destruct pre; discriminate.
  - apply exec_cons in H as (rt1 & out & evs2 & Hs & He & ->).
    assert (Hi : i <> Call_onAfterAll) by (intros ->; apply Hn; left; reflexivity).
    assert (Hr : ~ In Call_onAfterAll rest) by (intros Hin; apply Hn; right; exact Hin).
    destruct (step_other _ _ _ _ Hi Hs) as [[Hb1 Hq]|(k & c & -> & Hk & Hc)].
    + destruct (split_quiet _ _ _ _ _ _ Hq E) as (pre' & -> & E').
      rewrite Hb in Hb1.
      destruct (IH rt1 tail rt' evs2 pre' s post Hb1 Hr He E')
        as (Hful & a1 & j & a2 & rt3 & evs3 & -> & He1 & Hle & ->).
      split; [exact Hful|].
      exists (i :: a1), j, a2, rt3, (out ++ evs3).
      split; [reflexivity|]. split; [apply (exec_step _ _ _ _ _ _ _ Hs He1)|].
      split; [exact Hle|]. apply app_assoc.
    + destruct (filter_remove_at_only onAfterAll_cont _ _ _ _ Hk Hc Hb) as [-> Hb1].
      cbn [step] in Hs. rewrite Hk in Hs. cbn [resume with_awaiting settled] in Hs.
      destruct (tail <=? settled rt) eqn:Hle; [|discriminate].
      apply Nat.leb_le in Hle. some_inv Hs. cbn [proceed fst snd app] in *.
      pose proof (returned_run rest
                    (with_awaiting (remove_at k (awaiting rt)) rt) _ _
                    Hb1 Hr He) as Hq.
      destruct pre as [|e1 [|e2 pre2]]; cbn [app] in E.
      * discriminate.
      * injection E as <- <- _. split; [reflexivity|].
        exists [], k, rest, rt, []. repeat split. exact Hle.
      * injection E as _ _ E. exfalso.
        exact (quiet_no_return _ _ _ _ _ Hq E).
Qed.

(** The body suspended on the fan-out of line 150 goes on to line 151, where
    it awaits the tail as it is then. *)
Lemma fan_out_run later :
  forall rt rt' evs pre s post,
    onAfterAll_bodies rt = [onAfterAll_150 Fulfilled] ->
    ~ In Call_onAfterAll later ->
    exec rt later = Some (rt', evs) ->
    evs = pre ++ Return "onAfterAll" s :: post ->
    s = Fulfilled /\
    exists during k after rt1 evs1 a1 rt3 evs3,
      later = during ++ Resume k :: after /\
      exec rt during = Some (rt1, evs1) /\
      nth_error (awaiting rt1) k = Some (onAfterAll_150 Fulfilled) /\
      firstn (List.length a1) after = a1 /\
      exec rt (during ++ Resume k :: a1) = Some (rt3, evs3) /\
      _idlePromise (this rt1) <= settled rt3 /\
      pre = evs3 ++ [LogVerbose "finalized artifacts successfully"].
Proof.
  induction later as [|i rest IH]; intros rt rt' evs pre s post Hb Hn H E.
  - injection H as _ <-. destruct pre; discriminate.
  - apply exec_cons in H as (rt1 & out & evs2 & Hs & He & ->).
    assert (Hi : i <> Call_onAfterAll) by (intros ->; apply Hn; left; reflexivity).
    assert (Hr : ~ In Call_onAfterAll rest) by (intros Hin; apply Hn; right; exact Hin).
    destruct (step_other _ _ _ _ Hi Hs) as [[Hb1 Hq]|(k & c & -> & Hk & Hc)].
    + destruct (split_quiet _ _ _ _ _ _ Hq E) as (pre' & -> & E').
      rewrite Hb in Hb1.
      destruct (IH rt1 rt' evs2 pre' s post Hb1 Hr He E')
        as (Hful & during & k & after & rt2 & evs1 & a1 & rt3 & evs3 &
            -> & He1 & Hk & Ha1 & He3 & Hle & ->).
      split; [exact Hful|].
      exists (i :: during), k, after, rt2, (out ++ evs1), a1, rt3, (out ++ evs3).
      split; [reflexivity|].
      split; [apply (exec_step _ _ _ _ _ _ _ Hs He1)|].
      split; [exact Hk|]. split; [exact Ha1|].
      split; [apply (exec_step _ _ _ _ _ _ _ Hs He3)|].
      split; [exact Hle|]. apply app_assoc.
    + destruct (filter_remove_at_only onAfterAll_cont _ _ _ _ Hk Hc Hb) as [-> Hb1].
      pose proof Hs as Hs'.
      cbn [step] in Hs. rewrite Hk in Hs. cbn [resume with_awaiting this] in Hs.
      some_inv Hs. cbn [proceed fst snd app] in *.
      set (rt1 := with_awaiting
                    (awaiting (with_awaiting (remove_at k (awaiting rt)) rt) ++
                     [onAfterAll_151 (_idlePromise (this rt))])
                    (with_awaiting (remove_at k (awaiting rt)) rt)) in *.
      assert (Hb2 : onAfterAll_bodies rt1 = [onAfterAll_151 (_idlePromise (this rt))]).
      { unfold onAfterAll_bodies, rt1. cbn [awaiting with_awaiting].
        rewrite filter_app. unfold onAfterAll_bodies in Hb1.
        cbn [awaiting with_awaiting] in Hb1. rewrite Hb1. reflexivity. }
      destruct (awaiting_chain_run rest rt1 _ rt' evs2 pre s post Hb2 Hr He E)
        as (Hful & a1 & j & a2 & rt3 & evs3 & -> & He1 & Hle & ->).
      split; [exact Hful|].
      exists [], k, (a1 ++ Resume j :: a2), rt, [], a1, rt3, evs3.
      split; [reflexivity|]. split; [reflexivity|]. split; [exact Hk|].
      split; [rewrite firstn_app, firstn_all, Nat.sub_diag; cbn; apply app_nil_r|].
      split; [|split; [exact Hle|reflexivity]].
      cbn [app]. apply (exec_step _ _ _ _ _ _ _ Hs' He1).
Qed.

(** When the chain is in order and at least the first [requested] callbacks
    have settled, these have started and ended, one after the other. *)
Lemma chain_ok_settled requested more seen rt :
  chain_ok (requested ++ more) seen rt ->
  List.length requested <= settled rt ->
  exists rest, seen = one_at_a_time requested ++ rest.
Proof.
  intros (_ & _ & Hc) Hle.
  assert (Hfirst : firstn (settled rt) (requested ++ more) =
                   requested ++ firstn (settled rt - List.length requested) more).
  { rewrite firstn_app, firstn_all2 by exact Hle. reflexivity. }
  destruct (in_flight rt).
  - destruct Hc as (cb & _ & _ & _ & ->).
    rewrite Hfirst, one_at_a_time_app, <- app_assoc. eexists. reflexivity.
  - destruct Hc as (_ & _ & ->).
    rewrite Hfirst, one_at_a_time_app. eexists. reflexivity.
Qed.

(** * The claims *)

(** ** C1: idle callbacks requested after teardown (lines 74-82, 155-159) *)

(** C1 (the code at the failing input): after [onTerminate] has run to its
    end, two idle callbacks are requested.  The reaction of the chain then
    starts the first one only and leaves the second one queued, where the
    forced continuation [_runAllIdleTasks] would have started both:
    [_terminated] is still [undefined], since no method of the class ever
    writes it. *)
Theorem idle_request_after_onTerminate_is_not_forced :
  forall cb1 cb2 caller,
    let queued1 := set_from cb1 (name caller) in
    let queued2 := set_from cb2 (name caller) in
    exists rt0 evs0 rt evs,
      exec boot [Call_onTerminate; Resume 0; Resume 0;
                 Api_requestIdleCallback cb1 caller;
                 Api_requestIdleCallback cb2 caller] = Some (rt0, evs0) /\
      evs0 = [LogInfo "terminated all artifacts"; Return "onTerminate" Fulfilled] /\
      snd (_runAllIdleTasks (this rt0)) = [queued1; queued2] /\
      step rt0 Tick = Some (rt, evs) /\
      evs = [IdleStart queued1] /\
      in_flight rt = Some [queued1] /\
      _onIdleCallbacks (this rt) = [queued2] /\
      _terminated (this rt) = VUndefined.
Proof.
  intros cb1 cb2 caller queued1 queued2.
  eexists. eexists. eexists. eexists.
  split; [reflexivity|]. repeat split.
Qed.

(** ** C2: failures of the plugins during teardown (lines 155-159) *)

(** C2 (the code at the failing input): with two plugins registered and one
    artifact tracked, a rejecting [onTerminate] hook of the first plugin
    rejects the promise of [onTerminate]; nothing is logged, [discard()] is
    not called and nothing of the teardown is left to run.  When the hook
    throws instead, the second plugin's hook is not even called. *)
Theorem onTerminate_plugin_failure_skips_discard :
  forall e,
    let a := {| ref := 1; discard := Fulfils |} in
    (exists rt,
        exec boot [Call_registerArtifactPlugins
                     [plugin_that "video" (Rejects e); quiet "log"];
                   Api_trackArtifact a; Call_onTerminate; Resume 0]
        = Some (rt, [Invoke (plugin_that "video" (Rejects e)) "onTerminate" [];
                     Invoke (quiet "log") "onTerminate" [];
                     Return "onTerminate" (Rejected e)]) /\
        awaiting rt = [] /\ _activeArtifacts (this rt) = [a]) /\
    (exists rt,
        exec boot [Call_registerArtifactPlugins
                     [plugin_that "video" (Throws e); quiet "log"];
                   Api_trackArtifact a; Call_onTerminate]
        = Some (rt, [Invoke (plugin_that "video" (Throws e)) "onTerminate" [];
                     Return "onTerminate" (Rejected e)]) /\
        awaiting rt = [] /\ _activeArtifacts (this rt) = [a]).
Proof.
  intros e a. split; eexists; repeat split.
Qed.

(** ** C3: the accessors of the run context (lines 28-56, 117-127) *)

(** C3, as stated, fails: after a [launchApp] event that carries an empty
    bundle id and the process id 0, [getBundleId] and [getPid] throw instead
    of returning the values the event carried. *)
Lemma getters_after_launch_counterexample :
  let e := {| deviceId := VStr "emulator-5554"; bundleId := VStr ""; pid := VNum 0 |} in
  exists rt evs,
    exec boot [Call_onLaunchApp e] = Some (rt, evs) /\
    getDeviceId (this rt) = Normal (deviceId e) /\
    getBundleId (this rt) = DetoxRuntimeError no_bundleId /\
    getBundleId (this rt) <> Normal (bundleId e) /\
    getPid (this rt) = DetoxRuntimeError no_pid /\
    getPid (this rt) <> Normal (pid e).
Proof.
  cbv zeta. eexists. eexists. split; [reflexivity|].
  repeat split; try reflexivity; discriminate.
Qed.

(** C3 (amended): in every run of a fresh manager, as long as no [launchApp]
    event has arrived the three accessors throw their precondition error;
    after one has arrived each accessor returns the value that the most
    recent [launchApp] event carried for its field when that value is truthy
    and throws its precondition error when it is falsy (empty string, 0,
    NaN, undefined).  The accessors are functions of the manager alone and
    return no new state: they have no side effect. *)
Theorem getters_follow_last_launch :
  forall inputs rt evs,
    exec boot inputs = Some (rt, evs) ->
    match last_launch inputs with
    | None =>
        getDeviceId (this rt) = DetoxRuntimeError no_deviceId /\
        getBundleId (this rt) = DetoxRuntimeError no_bundleId /\
        getPid (this rt) = DetoxRuntimeError no_pid
    | Some e =>
        getDeviceId (this rt) = guarded (deviceId e) no_deviceId /\
        getBundleId (this rt) = guarded (bundleId e) no_bundleId /\
        getPid (this rt) = guarded (pid e) no_pid
    end.
Proof.
  intros inputs rt evs H.
  pose proof (context_of_run inputs None boot rt evs) as Hc.
  specialize (Hc (conj eq_refl (conj eq_refl eq_refl)) H).
  fold (last_launch inputs) in Hc.
  unfold getDeviceId, getBundleId, getPid, guarded.
  destruct (last_launch inputs) as [e|]; cbn [context_is] in Hc;
    destruct Hc as (-> & -> & ->).
  - destruct (truthy (deviceId e)), (truthy (bundleId e)), (truthy (pid e));
      auto.
  - auto.
Qed.

Lemma getters_follow_last_launch_witness :
  exists rt evs,
    exec boot [Call_onLaunchApp (mkLaunch (VStr "emulator-5554") (VStr "com.example") (VNum 4321));
               Call_onBeforeAll;
               Call_onLaunchApp (mkLaunch (VStr "emulator-5556") (VStr "com.example") (VNum 4400))]
    = Some (rt, evs) /\
    getDeviceId (this rt) = Normal (VStr "emulator-5556") /\
    getBundleId (this rt) = Normal (VStr "com.example") /\
    getPid (this rt) = Normal (VNum 4400).
Proof.
  eexists. eexists. split; [reflexivity|].
  exact (getters_follow_last_launch
           [Call_onLaunchApp (mkLaunch (VStr "emulator-5554") (VStr "com.example") (VNum 4321));
            Call_onBeforeAll;
            Call_onLaunchApp (mkLaunch (VStr "emulator-5556") (VStr "com.example") (VNum 4400))]
           _ _ eq_refl).
Defined.

(** ** C4: the relaunch fan-out (lines 117-127) *)

(** C4, as stated, fails: when the first [launchApp] event carries an empty
    device id, the second [launchApp] event triggers no [onRelaunchApp]
    fan-out either. *)
Lemma relaunch_counterexample :
  exists rt evs,
    exec boot [Call_registerArtifactPlugins [quiet "log"];
               Call_onLaunchApp (mkLaunch (VStr "") (VStr "com.example") (VNum 4321));
               Call_onLaunchApp (mkLaunch (VStr "emulator-5554") (VStr "com.example") (VNum 4400))]
    = Some (rt, evs) /\
    invocations evs = [] /\
    evs = [Return "onLaunchApp" Fulfilled; Return "onLaunchApp" Fulfilled].
Proof. eexists. eexists. repeat split. Qed.

(** C4 (amended): in every run of a fresh manager, the first [launchApp]
    event triggers no [onRelaunchApp] fan-out, and a later [launchApp] event
    triggers exactly one, calling the [onRelaunchApp] hook of every
    registered plugin once with the new [{deviceId, bundleId, pid}] payload,
    when the [launchApp] event before it carried a truthy (non-empty)
    device id; when that device id was falsy it triggers none. *)
Theorem relaunch_fan_out :
  forall inputs rt evs e rt' out,
    exec boot inputs = Some (rt, evs) ->
    step rt (Call_onLaunchApp e) = Some (rt', out) ->
    invocations out =
    match last_launch inputs with
    | None => []
    | Some e0 =>
        if truthy (deviceId e0)
        then map (fun p => (p, "onRelaunchApp", [relaunch_payload e]))
                 (_artifactPlugins (this rt))
        else []
    end.
Proof.
  intros inputs rt evs e rt' out H Hs.
  pose proof (context_of_run inputs None boot rt evs) as Hc.
  specialize (Hc (conj eq_refl (conj eq_refl eq_refl)) H).
  fold (last_launch inputs) in Hc.
  cbn [step] in Hs. unfold onLaunchApp in Hs.
  assert (Hd : truthy (_deviceId (this rt)) =
               match last_launch inputs with
               | None => false
               | Some e0 => truthy (deviceId e0)
               end).
  { destruct (last_launch inputs); cbn [context_is] in Hc;
      destruct Hc as (-> & _); reflexivity. }
  rewrite Hd in Hs. clear Hd Hc.
  destruct (last_launch inputs) as [e0|].
  - destruct (truthy (deviceId e0)); cbn [negb] in Hs.
    + pose proof (_emit_invocations "onRelaunchApp" [relaunch_payload e]
                    (set_context (deviceId e) (bundleId e) (pid e) (this rt))) as Hi.
      destruct (_emit _ _ _) as [evs0 s]. some_inv Hs.
      rewrite invocations_proceed. exact Hi.
    + some_inv Hs. reflexivity.
  - cbn [negb] in Hs. some_inv Hs. reflexivity.
Qed.

Lemma relaunch_fan_out_witness :
  exists rt' out,
    step (with_this
            (set_context (VStr "emulator-5554") (VStr "com.example") (VNum 4321)
               (registerArtifactPlugins [quiet "log"] constructor)) boot)
         (Call_onLaunchApp (mkLaunch (VStr "emulator-5554") (VStr "com.example") (VNum 4400)))
    = Some (rt', out) /\
    invocations out =
    [(quiet "log", "onRelaunchApp",
      [relaunch_payload (mkLaunch (VStr "emulator-5554") (VStr "com.example") (VNum 4400))])].
Proof.
  eexists. eexists. split; [reflexivity|].
  exact (relaunch_fan_out
           [Call_registerArtifactPlugins [quiet "log"];
            Call_onLaunchApp (mkLaunch (VStr "emulator-5554") (VStr "com.example") (VNum 4321))]
           _ _ _ _ _ eq_refl eq_refl).
Defined.

(** ** C5: error isolation in the fan-out (lines 161-169) *)

(** C5: a failing hook never fails the fan-out and never keeps the other
    plugins from being called.  In every state a fresh manager can reach and
    for each of the seven lifecycle fan-outs ([onBeforeAll], [onBeforeTest],
    [onBeforeResetDevice], [onResetDevice], [onRelaunchApp], [onAfterTest],
    [onAfterAll]), whatever the hooks of the registered plugins do (fulfil,
    reject or throw): the hook of every registered plugin is called, once
    and with the arguments of the event; the promise returned by the method
    that handles the event fulfils once the run time has resumed the method
    (for [onAfterAll]: once it also has drained the idle chain); and in no
    continuation of the run does that promise reject. *)
Theorem lifecycle_fan_out_isolates_failures :
  forall inputs rt evs i method hookName args,
    exec boot inputs = Some (rt, evs) ->
    lifecycle i (this rt) = Some (method, hookName, args) ->
    exists rt1 out,
      step rt i = Some (rt1, out) /\
      invocations out =
        map (fun p => (p, hookName, args)) (_artifactPlugins (this rt)) /\
      (exists schedule rt2 evs2,
          run_time_only schedule = true /\
          exec rt1 schedule = Some (rt2, evs2) /\
          In (Return method Fulfilled) evs2) /\
      (forall later rt3 evs3 e,
          exec rt1 later = Some (rt3, evs3) ->
          ~ In (Return method (Rejected e)) (out ++ evs3)).
Proof.
  intros inputs rt evs i method hookName args H Hl.
  assert (Hstep : exists rt1 out,
             step rt i = Some (rt1, out) /\
             invocations out =
               map (fun p => (p, hookName, args)) (_artifactPlugins (this rt)) /\
             exists schedule rt2 evs2,
               run_time_only schedule = true /\
               exec rt1 schedule = Some (rt2, evs2) /\
               In (Return method Fulfilled) evs2).
  { destruct i; cbn [lifecycle] in Hl; try discriminate;
      try (injection Hl as <- <- <-;
           match goal with
           | |- context [step rt ?i] =>
               destruct (fan_out_step rt rt i _ _ _ (await_emit _)
                           eq_refl eq_refl eq_refl)
                 as (out & Hs & Hi)
           end;
           eexists; exists out; split; [exact Hs|]; split; [exact Hi|];
           apply await_emit_returns).
    - (* onLaunchApp fans out to onRelaunchApp *)
      destruct (truthy (_deviceId (this rt))) eqn:Hd; [|discriminate].
      injection Hl as <- <- <-.
      destruct (fan_out_step rt
                  (with_this (set_context (deviceId e) (bundleId e) (pid e) (this rt)) rt)
                  (Call_onLaunchApp e) "onLaunchApp" "onRelaunchApp"
                  [relaunch_payload e] (await_emit "onLaunchApp")
                  eq_refl eq_refl)
        as (out & Hs & Hi).
      { cbn [step]. unfold onLaunchApp. rewrite Hd. cbn [negb].
        destruct (_emit _ _ _). reflexivity. }
      eexists. exists out. split; [exact Hs|]. split; [exact Hi|].
      apply (await_emit_returns "onLaunchApp"
               (with_this (set_context (deviceId e) (bundleId e) (pid e) (this rt)) rt)).
    - (* onAfterAll also awaits the idle chain *)
      injection Hl as <- <- <-.
      destruct (fan_out_step rt rt Call_onAfterAll "onAfterAll" "onAfterAll" []
                  onAfterAll_150 eq_refl eq_refl eq_refl)
        as (out & Hs & Hi).
      eexists. exists out. split; [exact Hs|]. split; [exact Hi|].
      apply (onAfterAll_returns inputs rt evs out H).
      cbn [step] in Hs. destruct (onAfterAll (this rt)) as [evs0 pr] eqn:Ha.
      unfold onAfterAll in Ha.
      pose proof (_emit_fulfils "onAfterAll" [] (this rt)) as Hf.
      destruct (_emit _ _ _) as [evs1 s]. cbn [snd] in Hf. subst s.
      injection Ha as <- <-. cbn [proceed] in Hs. injection Hs as <-.
      reflexivity. }
  destruct Hstep as (rt1 & out & Hs & Hi & Hret).
  exists rt1, out. split; [exact Hs|]. split; [exact Hi|]. split; [exact Hret|].
  intros later rt3 evs3 e He Hin.
  assert (Hrun : exec boot (inputs ++ i :: later) =
                 Some (rt3, evs ++ out ++ evs3)).
  { rewrite exec_app, H. cbn [exec]. rewrite Hs, He. reflexivity. }
  destruct (run_rejections _ boot _ _ eq_refl Hrun) as [_ Hr].
  assert (Hm : method = "onTerminate").
  { apply Hr. apply (rejections_In method e).
    apply in_or_app. right. exact Hin. }
  subst method.
  destruct i; cbn [lifecycle] in Hl; try discriminate.
  destruct (truthy _); discriminate.
Qed.

Lemma lifecycle_fan_out_isolates_failures_witness :
  exists rt1 out,
    step (with_this (registerArtifactPlugins [faulty "video"; quiet "log"] constructor) boot)
         Call_onBeforeAll = Some (rt1, out) /\
    out = [Invoke (faulty "video") "onBeforeAll" [];
           LogError (VStr "video") "onBeforeAll" (VStr "not ready");
           Invoke (quiet "log") "onBeforeAll" []] /\
    exists schedule rt2 evs2,
      run_time_only schedule = true /\
      exec rt1 schedule = Some (rt2, evs2) /\
      In (Return "onBeforeAll" Fulfilled) evs2.
Proof.
  destruct (lifecycle_fan_out_isolates_failures
              [Call_registerArtifactPlugins [faulty "video"; quiet "log"]]
              _ _ Call_onBeforeAll _ _ _ eq_refl eq_refl)
    as (rt1 & out & Hs & _ & Hret & _).
  exists rt1, out. split; [exact Hs|]. split; [|exact Hret].
  cbn in Hs. injection Hs as _ <-. reflexivity.
Defined.

(** ** C6: the order of the idle callbacks (lines 74-94) *)

(** C6: idle callbacks run in the order of their requests, one at a time.
    For three callbacks A, B and C requested in that order (by any plugins,
    with any other requests before, between and after them, and whatever
    else happens, teardown included), the starts and ends of idle callbacks
    observed at any moment are an initial part of the sequence in which
    every callback starts and ends before the next one starts and A comes
    before B and B before C; and left to itself the run time runs all of
    them, in exactly that sequence. *)
Theorem idle_callbacks_run_in_request_order :
  forall inputs rt evs pre A mid1 B mid2 C post,
    exec boot inputs = Some (rt, evs) ->
    requests inputs = pre ++ A :: mid1 ++ B :: mid2 ++ C :: post ->
    let order :=
      one_at_a_time pre ++ IdleStart A :: IdleEnd A ::
      one_at_a_time mid1 ++ IdleStart B :: IdleEnd B ::
      one_at_a_time mid2 ++ IdleStart C :: IdleEnd C ::
      one_at_a_time post in
    (exists n, idle_events evs = firstn n order) /\
    (exists rt' evs',
        exec rt (drain rt) = Some (rt', evs') /\
        idle_events (evs ++ evs') = order).
Proof.
  intros inputs rt evs pre A mid1 B mid2 C post H Hreq order.
  assert (Horder : order = one_at_a_time (requests inputs)).
  { rewrite Hreq. unfold order.
    rewrite one_at_a_time_app. f_equal.
    change (A :: mid1 ++ B :: mid2 ++ C :: post)
      with ([A] ++ mid1 ++ B :: mid2 ++ C :: post).
    rewrite one_at_a_time_app. cbn [one_at_a_time flat_map app]. f_equal. f_equal.
    fold (one_at_a_time mid1).
    rewrite one_at_a_time_app. f_equal.
    change (B :: mid2 ++ C :: post) with ([B] ++ mid2 ++ C :: post).
    rewrite one_at_a_time_app. cbn [one_at_a_time flat_map app]. f_equal. f_equal.
    fold (one_at_a_time mid2).
    rewrite one_at_a_time_app. reflexivity. }
  rewrite Horder. clear Horder order.
  pose proof (chain_of_run _ _ _ H) as Hc. split.
  - apply (chain_ok_prefix _ _ _ Hc).
  - destruct (drain_settles _ _ _ Hc) as (rt' & evs' & He & Hs & _).
    exists rt', evs'. split; [exact He|].
    rewrite idle_events_app. exact Hs.
Qed.

Lemma idle_callbacks_run_in_request_order_witness :
  exists rt evs,
    exec boot [Api_requestIdleCallback (task 1 Fulfils) (quiet "video");
               Api_requestIdleCallback (task 2 (Rejects (VStr "disk full"))) (quiet "log");
               Tick;
               Api_requestIdleCallback (task 3 Fulfils) (quiet "video");
               Finish 0; Tick] = Some (rt, evs) /\
    idle_events evs =
    [IdleStart (set_from (task 1 Fulfils) (VStr "video"));
     IdleEnd (set_from (task 1 Fulfils) (VStr "video"));
     IdleStart (set_from (task 2 (Rejects (VStr "disk full"))) (VStr "log"))] /\
    exists rt' evs',
      exec rt (drain rt) = Some (rt', evs') /\
      idle_events (evs ++ evs') =
      [IdleStart (set_from (task 1 Fulfils) (VStr "video"));
       IdleEnd (set_from (task 1 Fulfils) (VStr "video"));
       IdleStart (set_from (task 2 (Rejects (VStr "disk full"))) (VStr "log"));
       IdleEnd (set_from (task 2 (Rejects (VStr "disk full"))) (VStr "log"));
       IdleStart (set_from (task 3 Fulfils) (VStr "video"));
       IdleEnd (set_from (task 3 Fulfils) (VStr "video"))].
Proof.
  eexists. eexists. split; [reflexivity|]. split; [reflexivity|].
  exact (proj2 (idle_callbacks_run_in_request_order
                  [Api_requestIdleCallback (task 1 Fulfils) (quiet "video");
                   Api_requestIdleCallback (task 2 (Rejects (VStr "disk full"))) (quiet "log");
                   Tick;
                   Api_requestIdleCallback (task 3 Fulfils) (quiet "video");
                   Finish 0; Tick]
                  _ _ [] _ [] _ [] _ [] eq_refl eq_refl)).
Defined.

(** ** C7: teardown runs once (line 12) *)

(** C7: once [onTerminate] has been invoked, invoking it again does nothing
    at all.  Every run in which [onTerminate] is invoked again is, in the
    state it reaches and in everything it does (hook calls, discards, logs,
    returns), the run without that invocation: the body, and with it the
    plugins' [onTerminate] hooks and the artifacts' [discard()], is executed
    by the first invocation only. *)
Theorem onTerminate_is_idempotent :
  forall before after,
    In Call_onTerminate before ->
    exec boot (before ++ Call_onTerminate :: after) = exec boot (before ++ after).
Proof.
  intros before after Hin.
  rewrite !exec_app.
  destruct (exec boot before) as [[rt evs]|] eqn:E; [|reflexivity].
  cbn [exec].
  rewrite (onTerminate_again rt).
  - destruct (exec rt after) as [[rt2 evs2]|]; reflexivity.
  - apply (called_of_run _ _ _ _ E). right. exact Hin.
Qed.

Lemma onTerminate_is_idempotent_witness :
  exec boot ([Call_registerArtifactPlugins [quiet "log"];
              Api_trackArtifact (mkArtifact 1 Fulfils);
              Call_onTerminate] ++ Call_onTerminate :: [Resume 0; Resume 0]) =
  exec boot ([Call_registerArtifactPlugins [quiet "log"];
              Api_trackArtifact (mkArtifact 1 Fulfils);
              Call_onTerminate] ++ [Resume 0; Resume 0]).
Proof.
  apply onTerminate_is_idempotent. right. right. left. reflexivity.
Defined.

(** ** C8: what teardown discards (lines 66-72, 157) *)

(** C8, as stated, fails: an artifact passed to [trackArtifact] twice and
    never to [untrackArtifact] is discarded twice by teardown, not once. *)
Lemma discard_once_counterexample :
  let a := {| ref := 1; discard := Fulfils |} in
  exists rt evs,
    exec boot [Api_trackArtifact a; Api_trackArtifact a; Call_onTerminate; Resume 0]
    = Some (rt, evs) /\
    discards evs = [a; a] /\
    occurrences a (discards evs) <> 1.
Proof.
  cbv zeta. eexists. eexists. split; [reflexivity|].
  split; [reflexivity|]. cbn. discriminate.
Qed.

(** C8 (amended): for an artifact that is never passed to
    [untrackArtifact], in every run of a fresh manager in which teardown
    reaches its discard step (line 157, after the plugins' [onTerminate]
    hooks have all succeeded), [discard()] is called on the artifact, over
    the whole run, at most as many times as the artifact was passed to
    [trackArtifact] before that step runs, and exactly that many times when
    no [discard()] of a live artifact throws synchronously: once for an
    artifact tracked once, twice for one tracked twice.  What teardown does
    with an artifact that was passed to [untrackArtifact] is the matter of
    C10 and not of this statement. *)
Theorem teardown_discards_tracked :
  forall before rt0 evs0 k after rt evs a,
    exec boot before = Some (rt0, evs0) ->
    nth_error (awaiting rt0) k = Some (onTerminate_156 Fulfilled) ->
    exec rt0 (Resume k :: after) = Some (rt, evs) ->
    untracked a before = false ->
    occurrences a (discards (evs0 ++ evs)) <= tracked a before /\
    ((forall x e, In x (_activeArtifacts (this rt0)) -> discard x <> Throws e) ->
     occurrences a (discards (evs0 ++ evs)) = tracked a before).
Proof.
  intros before rt0 evs0 k after rt evs a H Hk He _.
  apply exec_cons in He as (rt1 & out & evs2 & Hs & He & ->).
  assert (Hbefore : discards evs0 = [] /\ past_discard rt1).
  { destruct (before_discard_run _ _ _ _ _ before_discard_boot H)
      as [(Hd & Hle & Hn)|[Hc Hp]].
    - split; [exact Hd|].
      pose proof (step_pending _ _ _ _ Hs) as Hp. cbn beta iota in Hp.
      rewrite Hk in Hp. split; [|lia].
      apply (step_called _ _ _ _ Hs).
      destruct (onTerminate_called (this rt0)); [reflexivity|].
      specialize (Hn eq_refl). lia.
    - exfalso. unfold discard_pending in Hp.
      apply nth_error_In in Hk.
      assert (Hin : In (onTerminate_156 Fulfilled)
                       (filter about_to_discard (awaiting rt0))).
      { apply filter_In. split; [exact Hk|reflexivity]. }
      destruct (filter about_to_discard (awaiting rt0)); [exact Hin|discriminate]. }
  destruct Hbefore as [Hd0 Hpast].
  destruct (past_discard_run _ _ _ _ Hpast He) as [_ Hd2].
  rewrite !discards_app, Hd0, Hd2, app_nil_r. cbn [app].
  assert (Ht : occurrences a (_activeArtifacts (this rt0)) = tracked a before).
  { unfold tracked. rewrite (live_of_run _ _ _ _ H). reflexivity. }
  rewrite <- Ht.
  assert (Hd : discards out = discards (fst (onTerminate_discard (this rt0)))).
  { cbn [step] in Hs. rewrite Hk in Hs. cbn [resume with_awaiting this] in Hs.
    destruct (onTerminate_discard (this rt0)). some_inv Hs. apply discards_proceed. }
  rewrite Hd. split.
  - destruct (onTerminate_discard_discards (this rt0)) as [n ->].
    apply occurrences_firstn.
  - intros Hn. rewrite (onTerminate_discard_all _ Hn). reflexivity.
Qed.

Lemma teardown_discards_tracked_witness :
  exists rt evs,
    exec boot [Api_trackArtifact (mkArtifact 2 Fulfils);
               Api_untrackArtifact (mkArtifact 2 Fulfils);
               Api_trackArtifact (mkArtifact 1 Fulfils);
               Call_onTerminate;
               Resume 0; Resume 0;
               Api_trackArtifact (mkArtifact 3 Fulfils);
               Call_onTerminate] = Some (rt, evs) /\
    untracked (mkArtifact 1 Fulfils)
      [Api_trackArtifact (mkArtifact 2 Fulfils);
       Api_untrackArtifact (mkArtifact 2 Fulfils);
       Api_trackArtifact (mkArtifact 1 Fulfils);
       Call_onTerminate] = false /\
    occurrences (mkArtifact 1 Fulfils) (discards evs) = 1 /\
    occurrences (mkArtifact 3 Fulfils) (discards evs) = 0.
Proof.
  eexists. eexists. split; [reflexivity|].
  split; [reflexivity|]. split; [|reflexivity].
  exact (proj2 (teardown_discards_tracked
                  [Api_trackArtifact (mkArtifact 2 Fulfils);
                   Api_untrackArtifact (mkArtifact 2 Fulfils);
                   Api_trackArtifact (mkArtifact 1 Fulfils);
                   Call_onTerminate]
                  _ _ 0
                  [Resume 0; Api_trackArtifact (mkArtifact 3 Fulfils);
                   Call_onTerminate]
                  _ _ (mkArtifact 1 Fulfils) eq_refl eq_refl eq_refl eq_refl)
               ltac:(intros x e [<-|[<-|[]]]; discriminate)).
Defined.

(** ** C9: onAfterAll waits for the idle chain (lines 149-153) *)

(** C9: [onAfterAll] returns only after the idle chain, as it stood when the
    fan-out of line 150 had completed, has settled.  Take any state that a
    fresh manager reaches and in which no body of [onAfterAll] is suspended,
    and let [onAfterAll] be called there and not again.  The call can run to
    its end, and then it fulfils.  And in every run, whatever else happens in
    it, if the promise of [onAfterAll] settles, then it fulfils, the fan-out
    of line 150 has completed before (its body was resumed, the [Resume k]
    below), and every idle callback requested before the call or during the
    fan-out, that is before that resumption, has started and ended, in
    request order, by the time the promise settles. *)
Theorem onAfterAll_awaits_the_idle_chain :
  forall before rt0 evs0,
    exec boot before = Some (rt0, evs0) ->
    forallb (fun c => negb (onAfterAll_cont c)) (awaiting rt0) = true ->
    (exists schedule rt evs,
        run_time_only schedule = true /\
        exec rt0 (Call_onAfterAll :: schedule) = Some (rt, evs) /\
        In (Return "onAfterAll" Fulfilled) evs) /\
    (forall later rt evs pre s post,
        ~ In Call_onAfterAll later ->
        exec rt0 (Call_onAfterAll :: later) = Some (rt, evs) ->
        evs = pre ++ Return "onAfterAll" s :: post ->
        s = Fulfilled /\
        exists during k after,
          later = during ++ Resume k :: after /\
          (exists rt1 evs1,
              exec rt0 (Call_onAfterAll :: during) = Some (rt1, evs1) /\
              nth_error (awaiting rt1) k = Some (onAfterAll_150 Fulfilled)) /\
          exists rest,
            idle_events (evs0 ++ pre) =
            one_at_a_time (requests (before ++ during)) ++ rest).
Proof.
  intros before rt0 evs0 H Hno.
  pose proof (_emit_fulfils "onAfterAll" [] (this rt0)) as Hf.
  pose proof (_emit_hook_events "onAfterAll" [] (this rt0)) as Hh.
  destruct (_emit "onAfterAll" [] (this rt0)) as [evsc s0] eqn:Hemit.
  cbn [fst snd] in Hf, Hh. subst s0.
  set (rtc := with_awaiting (awaiting rt0 ++ [onAfterAll_150 Fulfilled]) rt0).
  assert (Hcall : step rt0 Call_onAfterAll = Some (rtc, evsc)).
  { cbn [step]. unfold onAfterAll. rewrite Hemit. reflexivity. }
  split.
  - destruct (onAfterAll_returns before rt0 evs0 evsc H)
      as (schedule & rt & evs & Hrt & He & Hin).
    { unfold onAfterAll. rewrite Hemit. reflexivity. }
    exists schedule, rt, (evsc ++ evs). split; [exact Hrt|]. split.
    + apply (exec_step _ _ _ _ _ _ _ Hcall He).
    + apply in_or_app. right. exact Hin.
  - intros later rt evs pre s post Hn He E.
    apply exec_cons in He as (rtc' & evsc' & evs2 & Hs & He & ->).
    rewrite Hcall in Hs. injection Hs as <- <-.
    apply (hook_events_not_returning "onAfterAll") in Hh.
    destruct (split_quiet _ _ _ _ _ _ Hh E) as (pre' & -> & E').
    assert (Hb : onAfterAll_bodies rtc = [onAfterAll_150 Fulfilled]).
    { unfold onAfterAll_bodies, rtc. cbn [awaiting with_awaiting].
      rewrite filter_app. fold (onAfterAll_bodies rt0).
      rewrite (no_bodies _ Hno). reflexivity. }
    destruct (fan_out_run later rtc rt evs2 pre' s post Hb Hn He E')
      as (Hful & during & k & after & rt1 & evs1 & a1 & rt3 & evs3 &
          -> & He1 & Hk & _ & He3 & Hle & ->).
    split; [exact Hful|]. exists during, k, after.
    split; [reflexivity|]. split.
    { exists rt1, (evsc ++ evs1). split; [|exact Hk].
      apply (exec_step _ _ _ _ _ _ _ Hcall He1). }
    assert (Hrun1 : exec boot (before ++ Call_onAfterAll :: during) =
                    Some (rt1, evs0 ++ evsc ++ evs1)).
    { rewrite exec_app, H, (exec_step _ _ _ _ _ _ _ Hcall He1). reflexivity. }
    assert (Hrun3 : exec boot (before ++ Call_onAfterAll ::
                                 during ++ Resume k :: a1) =
                    Some (rt3, evs0 ++ evsc ++ evs3)).
    { rewrite exec_app, H, (exec_step _ _ _ _ _ _ _ Hcall He3). reflexivity. }
    pose proof (chain_of_run _ _ _ Hrun1) as (_ & Hp1 & _).
    pose proof (chain_of_run _ _ _ Hrun3) as Hc3.
    rewrite requests_app in Hp1, Hc3.
    cbn [requests flat_map app] in Hp1, Hc3.
    fold (requests during) in Hp1. fold (requests (during ++ Resume k :: a1)) in Hc3.
    rewrite requests_app in Hc3. cbn [requests flat_map app] in Hc3.
    fold (requests a1) in Hc3.
    rewrite <- requests_app in Hp1. rewrite app_assoc, <- requests_app in Hc3.
    rewrite Hp1 in Hle.
    destruct (chain_ok_settled _ _ _ _ Hc3 Hle) as [rest Hrest].
    exists rest. rewrite <- Hrest.
    rewrite !idle_events_app. cbn [idle_events filter].
    rewrite !app_nil_r. reflexivity.
Qed.

Lemma onAfterAll_awaits_the_idle_chain_witness :
  exists rt0 evs0 rt evs,
    exec boot [Call_registerArtifactPlugins [quiet "log"];
               Api_requestIdleCallback (task 1 Fulfils) (quiet "log")] =
    Some (rt0, evs0) /\
    forallb (fun c => negb (onAfterAll_cont c)) (awaiting rt0) = true /\
    exec rt0 [Call_onAfterAll;
              Api_requestIdleCallback (task 2 Fulfils) (quiet "log");
              Resume 0;
              Api_requestIdleCallback (task 3 Fulfils) (quiet "log");
              Tick; Finish 0; Tick; Finish 0;
              Resume 0] = Some (rt, evs) /\
    evs = [Invoke (quiet "log") "onAfterAll" [];
           IdleStart (set_from (task 1 Fulfils) (VStr "log"));
           IdleEnd (set_from (task 1 Fulfils) (VStr "log"));
           IdleStart (set_from (task 2 Fulfils) (VStr "log"));
           IdleEnd (set_from (task 2 Fulfils) (VStr "log"));
           LogVerbose "finalized artifacts successfully"] ++
          Return "onAfterAll" Fulfilled :: [] /\
    exists during k after,
      [Api_requestIdleCallback (task 2 Fulfils) (quiet "log");
       Resume 0;
       Api_requestIdleCallback (task 3 Fulfils) (quiet "log");
       Tick; Finish 0; Tick; Finish 0;
       Resume 0] = during ++ Resume k :: after /\
      (exists rt1 evs1,
          exec rt0 (Call_onAfterAll :: during) = Some (rt1, evs1) /\
          nth_error (awaiting rt1) k = Some (onAfterAll_150 Fulfilled)) /\
      exists rest,
        idle_events
          (evs0 ++
           [Invoke (quiet "log") "onAfterAll" [];
            IdleStart (set_from (task 1 Fulfils) (VStr "log"));
            IdleEnd (set_from (task 1 Fulfils) (VStr "log"));
            IdleStart (set_from (task 2 Fulfils) (VStr "log"));
            IdleEnd (set_from (task 2 Fulfils) (VStr "log"));
            LogVerbose "finalized artifacts successfully"]) =
        one_at_a_time
          (requests
             ([Call_registerArtifactPlugins [quiet "log"];
               Api_requestIdleCallback (task 1 Fulfils) (quiet "log")] ++
              during)) ++ rest.
Proof.
  pose (before := [Call_registerArtifactPlugins [quiet "log"];
                   Api_requestIdleCallback (task 1 Fulfils) (quiet "log")]).
  pose (later := [Api_requestIdleCallback (task 2 Fulfils) (quiet "log");
                  Resume 0;
                  Api_requestIdleCallback (task 3 Fulfils) (quiet "log");
                  Tick; Finish 0; Tick; Finish 0;
                  Resume 0]).
  pose (pre := [Invoke (quiet "log") "onAfterAll" [];
                IdleStart (set_from (task 1 Fulfils) (VStr "log"));
                IdleEnd (set_from (task 1 Fulfils) (VStr "log"));
                IdleStart (set_from (task 2 Fulfils) (VStr "log"));
                IdleEnd (set_from (task 2 Fulfils) (VStr "log"));
                LogVerbose "finalized artifacts successfully"]).
  let v := eval vm_compute in (exec boot before) in
  match v with
  | Some (?r0, ?e0) =>
      assert (H0 : exec boot before = Some (r0, e0)) by (vm_compute; reflexivity);
      assert (Hno : forallb (fun c => negb (onAfterAll_cont c)) (awaiting r0) = true)
        by (vm_compute; reflexivity);
      let w := eval vm_compute in (exec r0 (Call_onAfterAll :: later)) in
      match w with
      | Some (?r, ?e) =>
          assert (H1 : exec r0 (Call_onAfterAll :: later) = Some (r, e))
            by (vm_compute; reflexivity);
          assert (E : e = pre ++ Return "onAfterAll" Fulfilled :: [])
            by (vm_compute; reflexivity);
          exists r0, e0, r, e;
          split; [exact H0|]; split; [exact Hno|]; split; [exact H1|];
          split; [exact E|];
          refine (proj2 (proj2 (onAfterAll_awaits_the_idle_chain
                                  before r0 e0 H0 Hno)
                           later r e pre Fulfilled [] _ H1 E))
      end
  end.
  intros Hin. repeat (destruct Hin as [Hin|Hin]; [discriminate|]). exact Hin.
Defined.

(** ** C10: untracking (lines 70-72) *)

(** C10 (the code at the failing input): an artifact is passed to
    [trackArtifact] twice and then to [untrackArtifact] once, by a call
    [api.untrackArtifact(a)].  The call throws nothing and changes nothing:
    both occurrences are still in the live set, and teardown then calls
    [discard()] on the artifact twice, where the claim has it removed and
    never discarded.  The method reads [_activeArtifacts] from
    [artifactsApi], which has no such property, and not from the manager. *)
Theorem untrackArtifact_removes_nothing :
  let a := {| ref := 1; discard := Fulfils |} in
  pull artifactsApi_activeArtifacts a = None /\
  exists rt0 rt,
    exec boot [Api_trackArtifact a; Api_trackArtifact a;
               Api_untrackArtifact a] = Some (rt0, []) /\
    _activeArtifacts (this rt0) = [a; a] /\
    exec rt0 [Call_onTerminate; Resume 0; Resume 0] =
    Some (rt, [Discard a; Discard a;
               LogInfo "terminated all artifacts";
               Return "onTerminate" Fulfilled]).
Proof.
  intros a. split; [reflexivity|].
  eexists. eexists. split; [reflexivity|]. split; reflexivity.
Qed.

(** * Further properties *)

(** ** X1: what a fan-out logs (lines 161-174) *)

Lemma errors_app evs1 evs2 : errors (evs1 ++ evs2) = errors evs1 ++ errors evs2.
Proof. apply filter_app. Qed.

Lemma errors_proceed_await method evs c rt :
  errors (snd (proceed method evs (Await c) rt)) = errors evs.
Proof. reflexivity. Qed.

Lemma errors_emit methodName args m :
  errors (fst (_emit methodName args m)) =
  flat_map (fun p => failure_log (name p) methodName (hook p methodName args))
           (_artifactPlugins m).
Proof.
  unfold _emit. cbn [fst].
  induction (_artifactPlugins m) as [|p ps IH]; [reflexivity|].
  cbn [map concat flat_map]. rewrite errors_app, IH. f_equal.
  unfold _emit_plugin, try_await, _errorHandler, failure_log.
  destruct (hook p methodName args); reflexivity.
Qed.

Lemma errors_of_fan_out rt i method hookName args rt1 out :
  lifecycle i (this rt) = Some (method, hookName, args) ->
  step rt i = Some (rt1, out) ->
  errors out =
  flat_map (fun p => failure_log (name p) hookName (hook p hookName args))
           (_artifactPlugins (this rt)).
Proof.
  intros Hl Hs.
  destruct i; cbn [lifecycle] in Hl; try discriminate;
    cbn [step] in Hs; unfold_fan_outs Hs;
    try (injection Hl as <- <- <-;
         on_fan_out Hs ltac:(fun n a m =>
           pose proof (errors_emit n a m) as He; destruct (_emit n a m));
         some_inv Hs; exact He).
  destruct (truthy (_deviceId (this rt))) eqn:Hd; [|discriminate].
  injection Hl as <- <- <-.
  unfold onLaunchApp in Hs. rewrite Hd in Hs. cbn [negb] in Hs.
  on_fan_out Hs ltac:(fun n a m =>
    pose proof (errors_emit n a m) as He; destruct (_emit n a m)).
  some_inv Hs. exact He.
Qed.

(** X1: a lifecycle fan-out logs exactly the hooks that failed.  For each of
    the seven fan-outs, the errors logged for it are one entry for every
    plugin whose hook rejected or threw, with the plugin's name
    (['unknown'] when the name is falsy), the name of the hook and the
    error, and nothing else: a plugin whose hook fulfilled is not logged.
    The entries are compared as a multiset, since a rejection is logged
    when it arrives and not when the hook is called. *)
Theorem fan_out_logs_exactly_the_failures :
  forall rt i method hookName args rt1 out,
    lifecycle i (this rt) = Some (method, hookName, args) ->
    step rt i = Some (rt1, out) ->
    Permutation
      (errors out)
      (flat_map (fun p => failure_log (name p) hookName (hook p hookName args))
                (_artifactPlugins (this rt))).
Proof.
  intros rt i method hookName args rt1 out Hl Hs.
  rewrite (errors_of_fan_out _ _ _ _ _ _ _ Hl Hs). apply Permutation_refl.
Qed.

Lemma fan_out_logs_exactly_the_failures_witness :
  exists rt1 out,
    step (with_this
            (registerArtifactPlugins
               [plugin_that "video" (Rejects (VStr "no disk"));
                quiet "log";
                anonymous (Throws (VStr "boom"))] constructor) boot)
         (Call_onBeforeTest (VStr "test 1")) = Some (rt1, out) /\
    Permutation
      (errors out)
      [LogError (VStr "video") "onBeforeTest" (VStr "no disk");
       LogError (VStr "unknown") "onBeforeTest" (VStr "boom")].
Proof.
  eexists. eexists. split; [reflexivity|].
  exact (fan_out_logs_exactly_the_failures _ (Call_onBeforeTest (VStr "test 1"))
           _ _ _ _ _ eq_refl eq_refl).
Defined.

(** ** X2: a failing idle callback (lines 74-94 and 176-182) *)

Lemma in_requests cb inputs :
  In cb (requests inputs) ->
  exists callback caller,
    In (Api_requestIdleCallback callback caller) inputs /\
    cb = set_from callback (name caller).
Proof.
  unfold requests. intros H. apply in_flat_map in H as (i & Hi & Hcb).
  destruct i; try contradiction. destruct Hcb as [<-|[]].
  exists callback, caller. split; [exact Hi|reflexivity].
Qed.

(** X2: a failing idle callback is logged under its requester and does not
    stop the chain.  In every run of a fresh manager, when the idle callback
    in flight settles, it is a callback that some plugin requested; if it
    rejected or threw, exactly one error is logged, at phase
    ['onIdleCallback'], under the name of a plugin that requested it
    (['unknown'] when that name is falsy); and in either case the promise of
    its link settles, so that the next reaction can run. *)
Theorem idle_callback_failure_is_logged :
  forall inputs rt evs k rt' out,
    exec boot inputs = Some (rt, evs) ->
    step rt (Finish k) = Some (rt', out) ->
    exists callback caller,
      In (Api_requestIdleCallback callback caller) inputs /\
      out = IdleEnd (set_from callback (name caller)) ::
            failure_log (name caller) "onIdleCallback" (run callback) /\
      in_flight rt' = None /\
      settled rt' = S (settled rt) /\
      this rt' = this rt.
Proof.
  intros inputs rt evs k rt' out H Hs.
  pose proof (chain_of_run _ _ _ H) as ((_ & Hdet) & _ & Hc).
  cbn [step] in Hs. unfold finish in Hs.
  destruct (in_flight rt) as [running|]; [|discriminate].
  destruct Hc as (cb & -> & Hn & _).
  rewrite Hdet in Hs.
  destruct k as [|k]; [|discriminate].
  cbn [nth_error remove_at firstn skipn app
       List.length Nat.sub Nat.ltb Nat.leb] in Hs.
  apply nth_error_In in Hn. apply in_requests in Hn as (callback & caller & Hin & ->).
  exists callback, caller. split; [exact Hin|].
  unfold try_await, _idleCallbackErrorHandle, _errorHandler, failure_log in *.
  cbn [run _from set_from] in Hs.
  destruct (run callback); some_inv Hs; repeat split.
Qed.

Lemma idle_callback_failure_is_logged_witness :
  exists rt evs rt' out,
    exec boot [Api_requestIdleCallback (task 1 (Rejects (VStr "disk full")))
                 (quiet "video");
               Api_requestIdleCallback (task 2 Fulfils) (quiet "log");
               Tick] = Some (rt, evs) /\
    step rt (Finish 0) = Some (rt', out) /\
    out = [IdleEnd (set_from (task 1 (Rejects (VStr "disk full"))) (VStr "video"));
           LogError (VStr "video") "onIdleCallback" (VStr "disk full")] /\
    in_flight rt' = None /\ settled rt' = 1.
Proof.
  eexists. eexists. eexists. eexists.
  split; [reflexivity|]. split; [reflexivity|].
  destruct (idle_callback_failure_is_logged
              [Api_requestIdleCallback (task 1 (Rejects (VStr "disk full")))
                 (quiet "video");
               Api_requestIdleCallback (task 2 Fulfils) (quiet "log");
               Tick] _ _ 0 _ _ eq_refl eq_refl)
    as (callback & caller & _ & _ & Hf & Hs & _).
  split; [reflexivity|]. split; [exact Hf|exact Hs].
Defined.

(** ** X3: the queue and the chain (lines 74-94) *)

(** X3: the queue and the chain stay in step.  In every run of a fresh
    manager, the tail of the chain counts the requests made so far, every
    request is either settled, in flight or queued, and at most one idle
    callback is in flight: a reaction of the chain never finds the queue
    empty and never starts a second callback beside a running one. *)
Theorem idle_queue_matches_chain :
  forall inputs rt evs,
    exec boot inputs = Some (rt, evs) ->
    _idlePromise (this rt) = List.length (requests inputs) /\
    settled rt +
      match in_flight rt with Some running => List.length running | None => 0 end +
      List.length (_onIdleCallbacks (this rt)) = List.length (requests inputs) /\
    match in_flight rt with
    | Some running => List.length running = 1
    | None => True
    end.
Proof.
  intros inputs rt evs H.
  pose proof (chain_of_run _ _ _ H) as (_ & Hp & Hc).
  split; [exact Hp|]. destruct (in_flight rt) as [running|].
  - destruct Hc as (cb & -> & Hn & -> & _).
    apply nth_error_length in Hn. rewrite length_skipn. cbn. split; [lia|reflexivity].
  - destruct Hc as (Hle & -> & _). rewrite length_skipn. split; [lia|exact I].
Qed.

Lemma idle_queue_matches_chain_witness :
  exists rt evs,
    exec boot [Api_requestIdleCallback (task 1 Fulfils) (quiet "video");
               Api_requestIdleCallback (task 2 Fulfils) (quiet "log");
               Tick; Finish 0;
               Api_requestIdleCallback (task 3 Fulfils) (quiet "log");
               Tick] = Some (rt, evs) /\
    _idlePromise (this rt) = 3 /\ settled rt = 1 /\
    List.length (_onIdleCallbacks (this rt)) = 1.
Proof.
  eexists. eexists. split; [reflexivity|].
  pose proof (idle_queue_matches_chain
                [Api_requestIdleCallback (task 1 Fulfils) (quiet "video");
                 Api_requestIdleCallback (task 2 Fulfils) (quiet "log");
                 Tick; Finish 0;
                 Api_requestIdleCallback (task 3 Fulfils) (quiet "log");
                 Tick] _ _ eq_refl) as (Hp & _ & _).
  split; [exact Hp|]. split; reflexivity.
Defined.

(** ** X4: the live set (lines 66-68 and 117-159) *)

(** X4: the live set follows the [trackArtifact] calls.  In every run of a
    fresh manager in which [untrackArtifact] is not called, the live set
    holds exactly the artifacts that were passed to [trackArtifact], each as
    often as it was passed and in the order of the calls: no other method
    adds, removes or reorders an artifact, and teardown leaves the
    artifacts it has discarded in the set. *)
Theorem live_set_follows_tracking :
  forall inputs rt evs,
    exec boot inputs = Some (rt, evs) ->
    (forall a, untracked a inputs = false) ->
    _activeArtifacts (this rt) = tracked_artifacts inputs.
Proof.
  intros inputs rt evs H _. rewrite (live_of_run _ _ _ _ H). reflexivity.
Qed.

Lemma live_set_follows_tracking_witness :
  exists rt evs,
    exec boot [Api_trackArtifact (mkArtifact 2 Fulfils);
               Call_onBeforeAll;
               Api_trackArtifact (mkArtifact 1 Fulfils);
               Api_trackArtifact (mkArtifact 2 Fulfils);
               Call_onTerminate; Resume 1; Resume 1; Resume 0] = Some (rt, evs) /\
    _activeArtifacts (this rt) =
    [mkArtifact 2 Fulfils; mkArtifact 1 Fulfils; mkArtifact 2 Fulfils].
Proof.
  eexists. eexists. split; [reflexivity|].
  apply (live_set_follows_tracking
           [Api_trackArtifact (mkArtifact 2 Fulfils);
            Call_onBeforeAll;
            Api_trackArtifact (mkArtifact 1 Fulfils);
            Api_trackArtifact (mkArtifact 2 Fulfils);
            Call_onTerminate; Resume 1; Resume 1; Resume 0] _ _ eq_refl).
  intros a. reflexivity.
Defined.

(** ** X5: the registry of plugins (lines 106-109) *)

Lemma this_after_plugins i m :
  _artifactPlugins (this_after i m) =
  match i with
  | Call_registerArtifactPlugins plugins => plugins
  | _ => _artifactPlugins m
  end.
Proof.
  destruct i; cbn [this_after]; try reflexivity.
  - unfold onLaunchApp. destruct (negb (negb _)); [destruct (_emit _ _ _)|]; reflexivity.
  - unfold onTerminate. destruct (onTerminate_called m); [reflexivity|].
    destruct (onTerminate_body _). reflexivity.
  - unfold idle_reaction, _runAllIdleTasks, _runNextIdleTask.
    destruct (truthy _); [reflexivity|]. destruct (_onIdleCallbacks m); reflexivity.
Qed.

Lemma plugins_of_run inputs :
  forall rt rt' evs,
    exec rt inputs = Some (rt', evs) ->
    _artifactPlugins (this rt') =
    last_registered_from (_artifactPlugins (this rt)) inputs.
Proof.
  induction inputs as [|i rest IH]; intros rt rt' evs H.
  - injection H as <- _. reflexivity.
  - apply exec_cons in H as (rt1 & evs1 & evs2 & Hs & He & _).
    rewrite (IH _ _ _ He). unfold last_registered_from. cbn [fold_left]. f_equal.
    apply step_this in Hs. rewrite Hs, this_after_plugins.
    destruct i; reflexivity.
Qed.

(** X5: registration replaces the registry, and nothing else changes it.  In
    every run of a fresh manager, a lifecycle fan-out calls the hooks of
    exactly the plugins given to the most recent [registerArtifactPlugins]
    call, in their order, and of no plugin when there was no such call:
    plugins of an earlier registration receive nothing any more. *)
Theorem fan_out_reaches_last_registered :
  forall inputs rt evs i method hookName args rt1 out,
    exec boot inputs = Some (rt, evs) ->
    lifecycle i (this rt) = Some (method, hookName, args) ->
    step rt i = Some (rt1, out) ->
    invocations out =
    map (fun p => (p, hookName, args)) (last_registered inputs).
Proof.
  intros inputs rt evs i method hookName args rt1 out H Hl Hs.
  pose proof (plugins_of_run _ _ _ _ H) as Hp. cbn in Hp.
  fold (last_registered inputs) in Hp. rewrite <- Hp. clear Hp H.
  destruct i; cbn [lifecycle] in Hl; try discriminate;
    cbn [step] in Hs; unfold_fan_outs Hs;
    try (injection Hl as <- <- <-;
         on_fan_out Hs ltac:(fun n a m =>
           pose proof (_emit_invocations n a m) as He; destruct (_emit n a m));
         some_inv Hs; exact He).
  destruct (truthy (_deviceId (this rt))) eqn:Hd; [|discriminate].
  injection Hl as <- <- <-.
  unfold onLaunchApp in Hs. rewrite Hd in Hs. cbn [negb] in Hs.
  on_fan_out Hs ltac:(fun n a m =>
    pose proof (_emit_invocations n a m) as He; destruct (_emit n a m)).
  some_inv Hs. exact He.
Qed.

Lemma fan_out_reaches_last_registered_witness :
  exists rt evs rt1 out,
    exec boot [Call_registerArtifactPlugins [quiet "video"; quiet "log"];
               Call_onBeforeAll;
               Call_registerArtifactPlugins [quiet "screenshot"]]
    = Some (rt, evs) /\
    step rt Call_onAfterAll = Some (rt1, out) /\
    invocations out = [(quiet "screenshot", "onAfterAll", [])].
Proof.
  eexists. eexists. eexists. eexists.
  split; [reflexivity|]. split; [reflexivity|].
  exact (fan_out_reaches_last_registered
           [Call_registerArtifactPlugins [quiet "video"; quiet "log"];
            Call_onBeforeAll;
            Call_registerArtifactPlugins [quiet "screenshot"]]
           _ _ Call_onAfterAll _ _ _ _ _ eq_refl eq_refl eq_refl).
Defined.

(** ** X6: teardown without failures (lines 155-159) *)

Lemma map_calls_fulfil calls :
  (forall ev o, In (ev, o) calls -> o = Fulfils) ->
  exists promises,
    map_calls calls = (map fst calls, inl promises) /\
    Promise_all promises = Fulfilled.
Proof.
  induction calls as [|[ev o] rest IH]; intros Hf.
  - exists []. split; reflexivity.
  - destruct IH as (ps & IH & Hp).
    { intros ev' o' Hin. apply (Hf ev'). right. exact Hin. }
    rewrite (Hf ev o (or_introl eq_refl)).
    exists (Fulfilled :: ps). cbn [map_calls]. rewrite IH. split; [reflexivity|exact Hp].
Qed.

(** X6: teardown when nothing fails.  When [onTerminate] is invoked for the
    first time and the [onTerminate] hook of every registered plugin and the
    [discard()] of every live artifact fulfil, then, run without
    interruption, it calls the hook of every plugin in registration order,
    then discards every live artifact in the order of the live set, then
    logs ['terminated all artifacts'] and fulfils.  The discarded artifacts
    stay in the live set: teardown does not untrack them. *)
Theorem onTerminate_success_path :
  forall rt,
    onTerminate_called (this rt) = false ->
    (forall p, In p (_artifactPlugins (this rt)) -> hook p "onTerminate" [] = Fulfils) ->
    (forall a, In a (_activeArtifacts (this rt)) -> discard a = Fulfils) ->
    exists rt',
      exec rt [Call_onTerminate;
               Resume (List.length (awaiting rt));
               Resume (List.length (awaiting rt))] =
      Some (rt',
            map (fun p => Invoke p "onTerminate" []) (_artifactPlugins (this rt)) ++
            map Discard (_activeArtifacts (this rt)) ++
            [LogInfo "terminated all artifacts"; Return "onTerminate" Fulfilled]) /\
      awaiting rt' = awaiting rt /\
      _activeArtifacts (this rt') = _activeArtifacts (this rt) /\
      onTerminate_called (this rt') = true.
Proof.
  intros rt Hc Hp Ha.
  destruct (map_calls_fulfil
              (map (fun plugin => (Invoke plugin "onTerminate" [], hook plugin "onTerminate" []))
                   (_artifactPlugins (this rt)))) as (ps & Hm1 & Hps).
  { intros ev o Hin. apply in_map_iff in Hin as (p & Hx & Hin).
    injection Hx as _ <-. apply Hp, Hin. }
  destruct (map_calls_fulfil
              (map (fun artifact => (Discard artifact, discard artifact))
                   (_activeArtifacts (this rt)))) as (ds & Hm2 & Hds).
  { intros ev o Hin. apply in_map_iff in Hin as (a & Hx & Hin).
    injection Hx as _ <-. apply Ha, Hin. }
  rewrite map_map in Hm1, Hm2. cbn [fst] in Hm1, Hm2.
  set (m1 := set_onTerminate_called true (this rt)).
  set (n := List.length (awaiting rt)).
  set (rt1 := with_awaiting (awaiting rt ++ [onTerminate_156 Fulfilled])
                (with_this m1 rt)).
  set (rt2 := with_awaiting (awaiting rt ++ [onTerminate_157 Fulfilled])
                (with_this m1 rt)).
  set (rt3 := with_awaiting (awaiting rt) (with_this m1 rt)).
  assert (H1 : step rt Call_onTerminate =
               Some (rt1, map (fun p => Invoke p "onTerminate" [])
                              (_artifactPlugins (this rt)))).
  { cbn [step]. unfold onTerminate. rewrite Hc. unfold onTerminate_body.
    fold m1. change (_artifactPlugins m1) with (_artifactPlugins (this rt)).
    rewrite Hm1, Hps. reflexivity. }
  assert (H2 : step rt1 (Resume n) =
               Some (rt2, map Discard (_activeArtifacts (this rt)))).
  { cbn [step]. unfold rt1, n. cbn [awaiting with_awaiting].
    rewrite nth_error_last, remove_at_last. cbn [resume].
    unfold onTerminate_discard. cbn [this with_awaiting with_this].
    change (_activeArtifacts m1) with (_activeArtifacts (this rt)).
    rewrite Hm2, Hds. reflexivity. }
  assert (H3 : step rt2 (Resume n) =
               Some (rt3, [LogInfo "terminated all artifacts";
                           Return "onTerminate" Fulfilled])).
  { cbn [step]. unfold rt2, n. cbn [awaiting with_awaiting].
    rewrite nth_error_last, remove_at_last. reflexivity. }
  exists rt3. split; [|repeat split].
  rewrite (exec_step _ _ _ _ _ _ _ H1
             (exec_step _ _ _ _ _ _ _ H2
                (exec_step _ _ [] _ _ _ _ H3 eq_refl))).
  rewrite app_nil_r. reflexivity.
Qed.

Lemma onTerminate_success_path_witness :
  exists rt',
    exec (with_this
            (trackArtifact (mkArtifact 2 Fulfils)
               (trackArtifact (mkArtifact 1 Fulfils)
                  (registerArtifactPlugins [quiet "video"; quiet "log"] constructor)))
            boot)
         [Call_onTerminate; Resume 0; Resume 0] =
    Some (rt',
          [Invoke (quiet "video") "onTerminate" [];
           Invoke (quiet "log") "onTerminate" [];
           Discard (mkArtifact 1 Fulfils); Discard (mkArtifact 2 Fulfils);
           LogInfo "terminated all artifacts"; Return "onTerminate" Fulfilled]) /\
    _activeArtifacts (this rt') = [mkArtifact 1 Fulfils; mkArtifact 2 Fulfils].
Proof.
  destruct (onTerminate_success_path
              (with_this
                 (trackArtifact (mkArtifact 2 Fulfils)
                    (trackArtifact (mkArtifact 1 Fulfils)
                       (registerArtifactPlugins [quiet "video"; quiet "log"] constructor)))
                 boot) eq_refl)
    as (rt' & He & _ & Hl & _).
  - intros p [<-|[<-|[]]]; reflexivity.
  - intros a [<-|[<-|[]]]; reflexivity.
  - exists rt'. split; [exact He|exact Hl].
Defined.

(** ** X7: discards come from teardown only (lines 117-159) *)

Lemma this_after_not_called i m :
  i <> Call_onTerminate ->
  onTerminate_called (this_after i m) = onTerminate_called m.
Proof.
  intros Hi. destruct i; cbn [this_after]; try reflexivity.
  - unfold onLaunchApp. destruct (negb (negb _)); [destruct (_emit _ _ _)|]; reflexivity.
  - contradiction.
  - unfold idle_reaction, _runAllIdleTasks, _runNextIdleTask.
    destruct (truthy _); [reflexivity|]. destruct (_onIdleCallbacks m); reflexivity.
Qed.

Lemma not_called_of_run inputs :
  forall rt rt' evs,
    exec rt inputs = Some (rt', evs) ->
    ~ In Call_onTerminate inputs ->
    onTerminate_called (this rt') = onTerminate_called (this rt).
Proof.
  induction inputs as [|i rest IH]; intros rt rt' evs H Hn.
  - injection H as <- _. reflexivity.
  - apply exec_cons in H as (rt1 & evs1 & evs2 & Hs & He & _).
    rewrite (IH _ _ _ He).
    + apply step_this in Hs. rewrite Hs. apply this_after_not_called.
      intros ->. apply Hn. left. reflexivity.
    + intros Hin. apply Hn. right. exact Hin.
Qed.

(** X7: nothing is discarded unless [onTerminate] is invoked.  In every run
    of a fresh manager in which [onTerminate] is not invoked, no
    [discard()] is ever called: neither the lifecycle fan-outs,
    [onAfterAll] included, nor the idle chain nor [untrackArtifact] discard
    an artifact. *)
Theorem no_discard_without_onTerminate :
  forall inputs rt evs,
    exec boot inputs = Some (rt, evs) ->
    ~ In Call_onTerminate inputs ->
    discards evs = [].
Proof.
  intros inputs rt evs H Hn.
  destruct (before_discard_run _ _ _ _ _ before_discard_boot H)
    as [(Hd & _)|[Hc _]].
  - exact Hd.
  - rewrite (not_called_of_run _ _ _ _ H Hn) in Hc. discriminate.
Qed.

Lemma no_discard_without_onTerminate_witness :
  exists rt evs,
    exec boot [Call_registerArtifactPlugins [quiet "log"];
               Api_trackArtifact (mkArtifact 1 Fulfils);
               Call_onBeforeAll; Resume 0;
               Api_untrackArtifact (mkArtifact 1 Fulfils);
               Api_trackArtifact (mkArtifact 2 Fulfils);
               Call_onAfterAll; Resume 0; Resume 0] = Some (rt, evs) /\
    discards evs = [].
Proof.
  eexists. eexists. split; [reflexivity|].
  apply (no_discard_without_onTerminate
           [Call_registerArtifactPlugins [quiet "log"];
            Api_trackArtifact (mkArtifact 1 Fulfils);
            Call_onBeforeAll; Resume 0;
            Api_untrackArtifact (mkArtifact 1 Fulfils);
            Api_trackArtifact (mkArtifact 2 Fulfils);
            Call_onAfterAll; Resume 0; Resume 0] _ _ eq_refl).
  intros H. repeat (destruct H as [H|H]; [discriminate|]). exact H.
Defined.

(** ** X8: the order of the discards (lines 66-68 and 157) *)

(** X8: teardown discards in tracking order.  In every run of a fresh
    manager in which [untrackArtifact] is not called and teardown reaches
    its discard step (line 157), the artifacts discarded over the whole run
    are an initial part of the list of the artifacts passed to
    [trackArtifact] until then, in the order of these calls; they are the
    whole list when no [discard()] throws synchronously. *)
Theorem teardown_discards_in_tracking_order :
  forall before rt0 evs0 k after rt evs,
    exec boot before = Some (rt0, evs0) ->
    (forall a, untracked a before = false) ->
    nth_error (awaiting rt0) k = Some (onTerminate_156 Fulfilled) ->
    exec rt0 (Resume k :: after) = Some (rt, evs) ->
    (exists n, discards (evs0 ++ evs) = firstn n (tracked_artifacts before)) /\
    ((forall x e, In x (tracked_artifacts before) -> discard x <> Throws e) ->
     discards (evs0 ++ evs) = tracked_artifacts before).
Proof.
  intros before rt0 evs0 k after rt evs H _ Hk He.
  apply exec_cons in He as (rt1 & out & evs2 & Hs & He & ->).
  pose proof (live_of_run _ _ _ _ H) as Hl. cbn in Hl. rewrite <- Hl.
  pose proof (step_pending _ _ _ _ Hs) as Hp. cbn beta iota in Hp.
  rewrite Hk in Hp.
  assert (Hbefore : discards evs0 = [] /\ past_discard rt1).
  { destruct (before_discard_run _ _ _ _ _ before_discard_boot H)
      as [(Hd & Hle & Hn)|[Hc Hz]].
    - split; [exact Hd|]. split; [|lia].
      apply (step_called _ _ _ _ Hs).
      destruct (onTerminate_called (this rt0)); [reflexivity|].
      specialize (Hn eq_refl). lia.
    - lia. }
  destruct Hbefore as [Hd0 Hpast].
  destruct (past_discard_run _ _ _ _ Hpast He) as [_ Hd2].
  rewrite !discards_app, Hd0, Hd2, app_nil_r. cbn [app].
  assert (Hd : discards out = discards (fst (onTerminate_discard (this rt0)))).
  { cbn [step] in Hs. rewrite Hk in Hs. cbn [resume with_awaiting this] in Hs.
    destruct (onTerminate_discard (this rt0)). some_inv Hs. apply discards_proceed. }
  rewrite Hd. split.
  - apply onTerminate_discard_discards.
  - intros Hn. apply onTerminate_discard_all, Hn.
Qed.

Lemma teardown_discards_in_tracking_order_witness :
  exists rt evs,
    exec boot [Api_trackArtifact (mkArtifact 3 Fulfils);
               Api_trackArtifact (mkArtifact 1 (Rejects (VStr "busy")));
               Api_trackArtifact (mkArtifact 2 Fulfils);
               Call_onTerminate; Resume 0; Resume 0] = Some (rt, evs) /\
    discards evs = [mkArtifact 3 Fulfils;
                    mkArtifact 1 (Rejects (VStr "busy"));
                    mkArtifact 2 Fulfils].
Proof.
  eexists. eexists. split; [reflexivity|].
  apply (proj2 (teardown_discards_in_tracking_order
                  [Api_trackArtifact (mkArtifact 3 Fulfils);
                   Api_trackArtifact (mkArtifact 1 (Rejects (VStr "busy")));
                   Api_trackArtifact (mkArtifact 2 Fulfils);
                   Call_onTerminate]
                  _ _ 0 [Resume 0] _ _ eq_refl
                  ltac:(intros a; reflexivity) eq_refl eq_refl)).
  intros x e [<-|[<-|[<-|[]]]]; discriminate.
Defined.

(** ** X9: the hooks of teardown (lines 12 and 155-159) *)

Lemma terminate_calls_app evs1 evs2 :
  terminate_calls (evs1 ++ evs2) = terminate_calls evs1 ++ terminate_calls evs2.
Proof. apply flat_map_app. Qed.

Lemma terminate_calls_proceed method evs pr rt :
  terminate_calls (snd (proceed method evs pr rt)) = terminate_calls evs.
Proof.
  destruct pr; cbn [proceed snd]; [reflexivity|].
  rewrite terminate_calls_app. cbn. apply app_nil_r.
Qed.

Lemma terminate_calls_emit methodName args m :
  String.eqb methodName "onTerminate" = false ->
  terminate_calls (fst (_emit methodName args m)) = [].
Proof.
  intros Hn. unfold _emit. cbn [fst].
  induction (_artifactPlugins m) as [|p ps IH]; [reflexivity|].
  cbn [map concat]. rewrite terminate_calls_app, IH, app_nil_r.
  unfold _emit_plugin, try_await, _errorHandler.
  destruct (hook p methodName args); cbn; rewrite Hn; reflexivity.
Qed.

Lemma terminate_calls_discard m :
  terminate_calls (fst (onTerminate_discard m)) = [].
Proof.
  unfold onTerminate_discard.
  destruct (map_calls_prefix
              (map (fun artifact => (Discard artifact, discard artifact))
                   (_activeArtifacts m))) as [n Hn].
  destruct (map_calls _) as [evs [ps|e]]; cbn [fst] in *; subst evs.
  all: rewrite map_map; cbn [fst]; revert n;
    induction (_activeArtifacts m) as [|a l IH]; intros [|n];
    try reflexivity; cbn [map firstn terminate_calls flat_map app]; apply IH.
Qed.

Lemma terminate_calls_body m :
  (exists n, terminate_calls (fst (onTerminate_body m)) =
             firstn n (_artifactPlugins m)) /\
  ((forall p e, In p (_artifactPlugins m) -> hook p "onTerminate" [] <> Throws e) ->
   terminate_calls (fst (onTerminate_body m)) = _artifactPlugins m).
Proof.
  assert (Hall : forall l n,
             terminate_calls
               (firstn n (map (fun p : Plugin => Invoke p "onTerminate" []) l)) =
             firstn n l).
  { induction l as [|p l IH]; intros [|n]; try reflexivity.
    cbn [map firstn terminate_calls flat_map app]. cbn. f_equal. apply IH. }
  unfold onTerminate_body. split.
  - destruct (map_calls_prefix
                (map (fun plugin => (Invoke plugin "onTerminate" [], hook plugin "onTerminate" []))
                     (_artifactPlugins m))) as [n Hn].
    exists n. rewrite map_map in Hn. cbn [fst] in Hn.
    destruct (map_calls _) as [evs [ps|e]]; cbn [fst] in *; subst evs; apply Hall.
  - intros Hno.
    destruct (map_calls_all
                (map (fun plugin => (Invoke plugin "onTerminate" [], hook plugin "onTerminate" []))
                     (_artifactPlugins m))) as [ps Hp].
    { intros ev o e Hin. apply in_map_iff in Hin as (p & Hx & Hin).
      injection Hx as _ <-. apply Hno, Hin. }
    rewrite Hp. cbn [fst]. rewrite map_map. cbn [fst].
    rewrite <- (firstn_all (map _ _)), Hall, length_map, firstn_all. reflexivity.
Qed.

(** Only the body that line 12 wraps calls the plugins' [onTerminate]
    hooks. *)
Lemma step_terminate_calls rt i rt' out :
  step rt i = Some (rt', out) ->
  terminate_calls out =
  match i with
  | Call_onTerminate =>
      if onTerminate_called (this rt) then []
      else terminate_calls
             (fst (onTerminate_body (set_onTerminate_called true (this rt))))
  | _ => []
  end.
Proof.
  intros H. destruct i; cbn [step] in H; unfold_fan_outs H;
    try (some_inv H; reflexivity; fail);
    try (on_fan_out H ltac:(fun n a m =>
           pose proof (terminate_calls_emit n a m eq_refl) as He;
           destruct (_emit n a m));
         some_inv H; rewrite terminate_calls_proceed; exact He).
  - (* onLaunchApp *)
    unfold onLaunchApp in H. destruct (negb (negb _)).
    + on_fan_out H ltac:(fun n a m =>
        pose proof (terminate_calls_emit n a m eq_refl) as He;
        destruct (_emit n a m)).
      some_inv H. rewrite terminate_calls_proceed. exact He.
    + some_inv H. reflexivity.
  - (* onTerminate *)
    unfold onTerminate in H. destruct (onTerminate_called (this rt)).
    + some_inv H. reflexivity.
    + destruct (onTerminate_body _). some_inv H. apply terminate_calls_proceed.
  - (* the reaction of line 79 *)
    unfold tick in H. destruct (in_flight rt); [discriminate|].
    destruct (_ <? _); [|discriminate].
    destruct (idle_reaction (this rt)) as [m started]. some_inv H.
    destruct (truthy _); [reflexivity|].
    clear. induction started; [reflexivity|assumption].
  - (* an idle callback settles *)
    unfold finish in H. destruct (in_flight rt) as [running|]; [|discriminate].
    destruct (_ <? _); [|discriminate].
    destruct (nth_error running i) as [cb|]; [|discriminate].
    unfold try_await, _idleCallbackErrorHandle, _errorHandler in H.
    destruct (run cb); some_inv H; reflexivity.
  - (* a suspended body continues *)
    destruct (nth_error (awaiting rt) i) as [c|]; [|discriminate].
    destruct c as [m s|[|e]|t|[|e]|[|e]]; cbn [resume] in H;
      try (some_inv H; rewrite terminate_calls_proceed; reflexivity).
    + destruct (t <=? _); [|discriminate]. some_inv H.
      rewrite terminate_calls_proceed. reflexivity.
    + pose proof (terminate_calls_discard
                    (this (with_awaiting (remove_at i (awaiting rt)) rt))) as Hd.
      destruct (onTerminate_discard _). some_inv H.
      rewrite terminate_calls_proceed. exact Hd.
  - (* a detached callback starts *)
    apply start_inv in H as (cb & rest & _ & _ & ->). reflexivity.
Qed.

Lemma terminate_calls_quiet inputs :
  forall rt rt' evs,
    exec rt inputs = Some (rt', evs) ->
    onTerminate_called (this rt) = true \/ ~ In Call_onTerminate inputs ->
    terminate_calls evs = [].
Proof.
  induction inputs as [|i rest IH]; intros rt rt' evs H Hq.
  - injection H as _ <-. reflexivity.
  - apply exec_cons in H as (rt1 & evs1 & evs2 & Hs & He & ->).
    rewrite terminate_calls_app, (step_terminate_calls _ _ _ _ Hs).
    rewrite (IH _ _ _ He).
    + rewrite app_nil_r. destruct i; try reflexivity.
      destruct Hq as [->|Hn]; [reflexivity|].
      exfalso. apply Hn. left. reflexivity.
    + destruct Hq as [Hc|Hn].
      * left. apply (step_called _ _ _ _ Hs Hc).
      * right. intros Hin. apply Hn. right. exact Hin.
Qed.

(** X9: the plugins' [onTerminate] hooks are called by the first
    [onTerminate] invocation and by nothing else.  In every run of a fresh
    manager, the [onTerminate] hooks called over the whole run, before and
    after that invocation, are an initial part of the list of the plugins
    registered when [onTerminate] is first invoked, in registration order,
    each at most once; they are all of them, each exactly once, when no
    hook throws synchronously. *)
Theorem terminate_hooks_are_called_once :
  forall before rt0 evs0 after rt evs,
    exec boot before = Some (rt0, evs0) ->
    ~ In Call_onTerminate before ->
    exec rt0 (Call_onTerminate :: after) = Some (rt, evs) ->
    (exists n, terminate_calls (evs0 ++ evs) = firstn n (last_registered before)) /\
    ((forall p e, In p (last_registered before) ->
                  hook p "onTerminate" [] <> Throws e) ->
     terminate_calls (evs0 ++ evs) = last_registered before).
Proof.
  intros before rt0 evs0 after rt evs H Hn He.
  apply exec_cons in He as (rt1 & out & evs2 & Hs & He & ->).
  pose proof (not_called_of_run _ _ _ _ H Hn) as Hc. cbn in Hc.
  pose proof (plugins_of_run _ _ _ _ H) as Hp. cbn in Hp.
  fold (last_registered before) in Hp.
  rewrite !terminate_calls_app.
  rewrite (terminate_calls_quiet _ _ _ _ H (or_intror Hn)).
  rewrite (terminate_calls_quiet _ _ _ _ He).
  2:{ left. apply step_this in Hs. rewrite Hs. apply onTerminate_sets_called. }
  rewrite (step_terminate_calls _ _ _ _ Hs), Hc, app_nil_r. cbn [app].
  rewrite <- Hp.
  apply (terminate_calls_body (set_onTerminate_called true (this rt0))).
Qed.

Lemma terminate_hooks_are_called_once_witness :
  exists rt evs,
    exec boot [Call_registerArtifactPlugins
                 [quiet "video"; plugin_that "log" (Rejects (VStr "busy"))];
               Call_onBeforeAll; Resume 0;
               Call_onTerminate; Resume 0; Call_onTerminate] = Some (rt, evs) /\
    terminate_calls evs =
    [quiet "video"; plugin_that "log" (Rejects (VStr "busy"))].
Proof.
  eexists. eexists. split; [reflexivity|].
  apply (proj2 (terminate_hooks_are_called_once
                  [Call_registerArtifactPlugins
                     [quiet "video"; plugin_that "log" (Rejects (VStr "busy"))];
                   Call_onBeforeAll; Resume 0]
                  _ _ [Resume 0; Call_onTerminate] _ _ eq_refl
                  ltac:(intros H; repeat (destruct H as [H|H]; [discriminate|]); exact H)
                  eq_refl)).
  intros p e [<-|[<-|[]]]; discriminate.
Defined.

(** ** X10: the promise of teardown (lines 12 and 155-159) *)

Lemma teardown_returns_app evs1 evs2 :
  teardown_returns (evs1 ++ evs2) = teardown_returns evs1 ++ teardown_returns evs2.
Proof. apply flat_map_app. Qed.

Lemma teardown_logs_app evs1 evs2 :
  teardown_logs (evs1 ++ evs2) = teardown_logs evs1 ++ teardown_logs evs2.
Proof. apply filter_app. Qed.

Lemma teardown_quiet_events evs :
  forallb (fun ev => match ev with
                     | Return _ _ | LogInfo _ => false
                     | _ => true
                     end) evs = true ->
  teardown_returns evs = [] /\ teardown_logs evs = [].
Proof.
  induction evs as [|ev evs IH]; [split; reflexivity|].
  cbn [forallb]. intros H. apply andb_true_iff in H as [H1 H2].
  destruct (IH H2) as [Hr Hl].
  destruct ev; try discriminate; split; assumption.
Qed.

Lemma _emit_quiet methodName args m :
  teardown_returns (fst (_emit methodName args m)) = [] /\
  teardown_logs (fst (_emit methodName args m)) = [].
Proof.
  apply teardown_quiet_events.
  pose proof (_emit_hook_events methodName args m) as H.
  apply forallb_forall. intros ev Hin.
  apply (proj1 (forallb_forall _ _) H) in Hin.
  destruct ev; try discriminate; reflexivity.
Qed.

Lemma body_quiet m :
  teardown_returns (fst (onTerminate_body m)) = [] /\
  teardown_logs (fst (onTerminate_body m)) = [].
Proof.
  apply teardown_quiet_events.
  pose proof (onTerminate_body_hook_events m) as H.
  apply forallb_forall. intros ev Hin.
  apply (proj1 (forallb_forall _ _) H) in Hin.
  destruct ev; try discriminate; reflexivity.
Qed.

Lemma discard_quiet m :
  teardown_returns (fst (onTerminate_discard m)) = [] /\
  teardown_logs (fst (onTerminate_discard m)) = [].
Proof.
  apply teardown_quiet_events. unfold onTerminate_discard.
  destruct (map_calls_prefix
              (map (fun artifact => (Discard artifact, discard artifact))
                   (_activeArtifacts m))) as [n Hn].
  destruct (map_calls _) as [evs [ps|e]]; cbn [fst] in *; subst evs.
  all: rewrite map_map; cbn [fst]; apply forallb_forall; intros ev Hin;
    apply in_firstn in Hin; apply in_map_iff in Hin as [a [<- _]]; reflexivity.
Qed.

(** What [proceed] adds for a call of [method] that left the events [evs],
    none of them a return or a success message. *)
Lemma proceed_teardown method evs pr rt :
  teardown_returns evs = [] -> teardown_logs evs = [] ->
  forallb fan_out_cont (awaiting rt) = true ->
  match pr with Await c => fan_out_cont c = true | Done _ => True end ->
  let rt' := fst (proceed method evs pr rt) in
  let out := snd (proceed method evs pr rt) in
  forallb fan_out_cont (awaiting rt') = true /\
  teardown_logs out = [] /\
  teardown_returns out =
    match pr with
    | Await _ => []
    | Done s => if String.eqb method "onTerminate" then [s] else []
    end /\
  teardown_pending rt' =
    teardown_pending rt +
    match pr with
    | Await c => if teardown_cont c then 1 else 0
    | Done _ => 0
    end.
Proof.
  intros Hr Hl Hc Hpr. unfold teardown_pending.
  destruct pr as [c|s]; cbn [proceed fst snd awaiting with_awaiting].
  - rewrite forallb_app, Hc, Hr, Hl, filter_app, length_app. cbn [forallb filter].
    rewrite Hpr. destruct (teardown_cont c); cbn; auto.
  - rewrite teardown_returns_app, teardown_logs_app, Hr, Hl. cbn.
    destruct (String.eqb method "onTerminate"); cbn; auto.
Qed.

(** Decide the tests on method names, then [lia]. *)
Ltac eqb_lia :=
  cbn [teardown_cont];
  repeat match goal with
         | |- context [String.eqb ?a ?b] =>
             let v := eval vm_compute in (String.eqb a b) in
             change (String.eqb a b) with v
         end;
  cbn beta iota; lia.

(** The promise of [onTerminate] comes into being with the first call and
    is settled by the body of that call; the success message goes with its
    fulfilment. *)
Lemma step_teardown rt i rt' out :
  forallb fan_out_cont (awaiting rt) = true ->
  step rt i = Some (rt', out) ->
  forallb fan_out_cont (awaiting rt') = true /\
  teardown_pending rt' + List.length (teardown_returns out) =
    teardown_pending rt + teardown_started i (this rt) /\
  List.length (teardown_logs out) =
    List.length (filter fulfilled (teardown_returns out)).
Proof.
  intros Hc H.
  assert (Hgo : forall method evs pr rt0 k,
             teardown_returns evs = [] /\ teardown_logs evs = [] ->
             forallb fan_out_cont (awaiting rt0) = true ->
             match pr with
             | Await c => fan_out_cont c = true
             | Done s => String.eqb method "onTerminate" = true -> fulfilled s = false
             end ->
             teardown_pending rt0 +
               match pr with
               | Await c => if teardown_cont c then 1 else 0
               | Done _ => if String.eqb method "onTerminate" then 1 else 0
               end = teardown_pending rt + k ->
             forallb fan_out_cont
               (awaiting (fst (proceed method evs pr rt0))) = true /\
             teardown_pending (fst (proceed method evs pr rt0)) +
               List.length (teardown_returns (snd (proceed method evs pr rt0))) =
               teardown_pending rt + k /\
             List.length (teardown_logs (snd (proceed method evs pr rt0))) =
               List.length
                 (filter fulfilled
                    (teardown_returns (snd (proceed method evs pr rt0))))).
  { intros method evs pr rt0 k [Hr Hl] Hc0 Hpr Hk.
    destruct (proceed_teardown method evs pr rt0 Hr Hl Hc0) as (Hc1 & -> & -> & ->).
    { destruct pr; [exact Hpr|exact I]. }
    split; [exact Hc1|]. destruct pr as [c|s].
    - cbn. split; [lia|reflexivity].
    - destruct (String.eqb method "onTerminate"); cbn in *.
      + rewrite (Hpr eq_refl). cbn. split; [lia|reflexivity].
      + split; [lia|reflexivity]. }
  assert (Hsame : forall rt0,
             awaiting rt0 = awaiting rt ->
             forallb fan_out_cont (awaiting rt0) = true /\
             teardown_pending rt0 + List.length (teardown_returns []) =
               teardown_pending rt + 0 /\
             List.length (teardown_logs []) =
               List.length (filter fulfilled (teardown_returns []))).
  { intros rt0 Ha. unfold teardown_pending. rewrite Ha. cbn. auto with arith. }
  destruct i; cbn [step teardown_started] in *; unfold_fan_outs H;
    try (some_inv H; apply Hsame; reflexivity);
    try (on_fan_out H ltac:(fun n a m =>
           pose proof (_emit_quiet n a m) as Hq; destruct (_emit n a m));
         some_inv H; apply Hgo; [exact Hq|exact Hc|reflexivity|cbn; lia]).
  - (* onLaunchApp *)
    unfold onLaunchApp in H. destruct (negb (negb _)).
    + on_fan_out H ltac:(fun n a m =>
        pose proof (_emit_quiet n a m) as Hq; destruct (_emit n a m)).
      some_inv H. apply Hgo; [exact Hq|exact Hc|reflexivity|].
      unfold teardown_pending. cbn. lia.
    + some_inv H. apply Hgo; [split; reflexivity|exact Hc|discriminate|].
      unfold teardown_pending. cbn. lia.
  - (* onTerminate *)
    unfold onTerminate in H. destruct (onTerminate_called (this rt)).
    + some_inv H. apply (Hsame (with_this (this rt) rt)). reflexivity.
    + pose proof (body_quiet (set_onTerminate_called true (this rt))) as Hq.
      destruct (onTerminate_body _) as [evs0 pr] eqn:Hb. some_inv H.
      unfold onTerminate_body in Hb.
      destruct (map_calls _) as [? [?|?]]; injection Hb as _ <-;
        (apply Hgo; [exact Hq|exact Hc| |unfold teardown_pending; cbn; lia]);
        [reflexivity|intros _; reflexivity].
  - (* the reaction of line 79 *)
    pose proof (tick_awaiting _ _ _ H) as Ha.
    unfold tick in H. destruct (in_flight rt); [discriminate|].
    destruct (_ <? _); [|discriminate].
    destruct (idle_reaction (this rt)) as [m started]. some_inv H.
    unfold teardown_pending. rewrite Ha.
    assert (Hq : teardown_returns (map IdleStart started) = [] /\
                 teardown_logs (map IdleStart started) = []).
    { clear. induction started; [split; reflexivity|assumption]. }
    destruct (truthy _); [cbn; auto with arith|].
    destruct Hq as [-> ->]. cbn. auto with arith.
  - (* an idle callback settles *)
    pose proof (finish_awaiting _ _ _ _ H) as Ha.
    unfold finish in H. destruct (in_flight rt) as [running|]; [|discriminate].
    destruct (_ <? _); [|discriminate].
    destruct (nth_error running i) as [cb|]; [|discriminate].
    unfold try_await, _idleCallbackErrorHandle, _errorHandler in H.
    unfold teardown_pending.
    destruct (run cb); some_inv H; rewrite Ha; cbn; auto with arith.
  - (* a suspended body continues *)
    destruct (nth_error (awaiting rt) i) as [c|] eqn:Hn; [|discriminate].
    assert (Hcc : fan_out_cont c = true).
    { apply nth_error_In in Hn. apply (proj1 (forallb_forall _ _) Hc), Hn. }
    pose proof (forallb_remove_at _ i _ Hc) as Hc'.
    pose proof (filter_remove_at teardown_cont _ _ _ Hn) as Hf.
    fold (teardown_pending rt) in Hf.
    set (rt0 := with_awaiting (remove_at i (awaiting rt)) rt) in *.
    change (forallb fan_out_cont (awaiting rt0) = true) in Hc'.
    change (List.length (filter teardown_cont (remove_at i (awaiting rt))))
      with (teardown_pending rt0) in Hf.
    destruct c as [m s|[|e]|t|[|e]|[|e]]; cbn [resume] in H;
      cbn [teardown_cont fan_out_cont] in Hf, Hcc.
    + some_inv H. apply Hgo; [split; reflexivity|exact Hc'| |].
      * intros Hm. rewrite Hm in Hcc. discriminate.
      * apply negb_true_iff in Hcc. rewrite Hcc. lia.
    + some_inv H. apply Hgo; [split; reflexivity|exact Hc'|reflexivity|eqb_lia].
    + some_inv H. apply Hgo; [split; reflexivity|exact Hc'|discriminate|eqb_lia].
    + destruct (t <=? _); [|discriminate]. some_inv H.
      apply Hgo; [split; reflexivity|exact Hc'|discriminate|eqb_lia].
    + pose proof (discard_quiet (this rt0)) as Hq.
      destruct (onTerminate_discard (this rt0)) as [evs0 pr] eqn:Hd.
      some_inv H. unfold onTerminate_discard in Hd.
      destruct (map_calls _) as [? [?|?]]; injection Hd as _ <-;
        (apply Hgo; [exact Hq|exact Hc'| |eqb_lia]);
        [reflexivity|intros _; reflexivity].
    + some_inv H. apply Hgo; [split; reflexivity|exact Hc'| |eqb_lia].
      intros _. reflexivity.
    + some_inv H. cbn [proceed fst snd].
      split; [exact Hc'|]. split; [|reflexivity].
      change (teardown_pending rt0 + 1 = teardown_pending rt + 0). lia.
    + some_inv H. apply Hgo; [split; reflexivity|exact Hc'| |eqb_lia].
      intros _. reflexivity.
  - (* a detached callback starts *)
    pose proof (start_awaiting _ _ _ H) as Ha.
    apply start_inv in H as (cb & rest & _ & _ & ->).
    unfold teardown_pending. rewrite Ha. cbn. auto with arith.
Qed.

Lemma step_started rt i rt1 out :
  step rt i = Some (rt1, out) ->
  (if onTerminate_called (this rt1) then 1 else 0) =
  (if onTerminate_called (this rt) then 1 else 0) + teardown_started i (this rt).
Proof.
  intros Hs. apply step_this in Hs. rewrite Hs.
  destruct (onTerminate_called (this rt)) eqn:Hc.
  - rewrite (this_after_called i _ Hc). destruct i; cbn [teardown_started]; try reflexivity.
    rewrite Hc. reflexivity.
  - destruct i; cbn [teardown_started];
      try (rewrite this_after_not_called by discriminate; rewrite Hc; reflexivity).
    cbn [this_after]. rewrite onTerminate_sets_called, Hc. reflexivity.
Qed.

Lemma teardown_run inputs :
  forall rt rt' evs,
    forallb fan_out_cont (awaiting rt) = true ->
    exec rt inputs = Some (rt', evs) ->
    forallb fan_out_cont (awaiting rt') = true /\
    teardown_pending rt' + List.length (teardown_returns evs) +
      (if onTerminate_called (this rt) then 1 else 0) =
      teardown_pending rt + (if onTerminate_called (this rt') then 1 else 0) /\
    List.length (teardown_logs evs) =
      List.length (filter fulfilled (teardown_returns evs)).
Proof.
  induction inputs as [|i rest IH]; intros rt rt' evs Hc H.
  - injection H as <- <-. cbn. split; [exact Hc|]. split; [lia|reflexivity].
  - apply exec_cons in H as (rt1 & evs1 & evs2 & Hs & He & ->).
    destruct (step_teardown _ _ _ _ Hc Hs) as (Hc1 & Hp1 & Hl1).
    destruct (IH _ _ _ Hc1 He) as (Hc2 & Hp2 & Hl2).
    pose proof (step_started _ _ _ _ Hs) as Hst.
    rewrite teardown_returns_app, teardown_logs_app, filter_app, !length_app.
    split; [exact Hc2|]. split; lia.
Qed.

(** X10: the promise of [onTerminate] settles at most once, and the success
    message goes with its fulfilment.  In every run of a fresh manager,
    the settlements of that promise and the bodies of [onTerminate] still
    suspended add up to one when [onTerminate] has been invoked and to
    none when it has not, however often it is invoked; and "terminated all
    artifacts" is logged as often as the promise fulfils, hence at most
    once and never when it rejects. *)
Theorem teardown_settles_once :
  forall inputs rt evs,
    exec boot inputs = Some (rt, evs) ->
    teardown_pending rt + List.length (teardown_returns evs) =
      (if onTerminate_called (this rt) then 1 else 0) /\
    List.length (teardown_returns evs) <= 1 /\
    List.length (teardown_logs evs) =
      List.length (filter fulfilled (teardown_returns evs)).
Proof.
  intros inputs rt evs H.
  destruct (teardown_run inputs boot rt evs eq_refl H) as (_ & Hp & Hl).
  change (onTerminate_called (this boot)) with false in Hp.
  change (teardown_pending boot) with 0 in Hp. cbn beta iota in Hp.
  split; [|split; [|exact Hl]]; destruct (onTerminate_called (this rt)); lia.
Qed.

Lemma teardown_settles_once_witness :
  exists rt evs,
    exec boot [Call_registerArtifactPlugins [quiet "log"; quiet "video"];
               Api_trackArtifact (mkArtifact 1 Fulfils);
               Call_onTerminate; Call_onTerminate;
               Resume 0; Call_onTerminate; Resume 0] = Some (rt, evs) /\
    teardown_pending rt + List.length (teardown_returns evs) =
      (if onTerminate_called (this rt) then 1 else 0) /\
    List.length (teardown_returns evs) <= 1 /\
    List.length (teardown_logs evs) =
      List.length (filter fulfilled (teardown_returns evs)).
Proof.
  eexists _, _. split; [reflexivity|].
  apply (teardown_settles_once
           [Call_registerArtifactPlugins [quiet "log"; quiet "video"];
            Api_trackArtifact (mkArtifact 1 Fulfils);
            Call_onTerminate; Call_onTerminate;
            Resume 0; Call_onTerminate; Resume 0]).
  reflexivity.
Defined.
